(** * PayPal2CSV: the statement parser and the payee extractor

    A shallow embedding of [src/PayPal2CSV.py]: the regular expressions the
    program uses, the text helpers of Python's [str], [PayeeExtractor]
    ([extract], [_extract_after_prefix], [_extract_intelligent],
    [_clean_text], [_score_chunk]) and the line loop of
    [PayPalPDFParser.parse].

    Text.  A Python [str] is a sequence of code points: [str] is [list N].
    Whitespace ([str.strip], [str.split], [\s]) is Python's full whitespace
    set.  Letters, digits and case are the ASCII ones: the classes the
    patterns spell out ([A-Z], [a-z]) are ASCII in Python too, while
    [str.lower], [str.isupper], [\d], [\b] and [re.I] are modelled on their
    ASCII part, so a code point above 127 is a caseless non-word symbol
    here.  On ASCII text the definitions below are Python's; on other text
    they differ where Python knows more letters and digits: [str.isupper]
    and [str.lower] of a letter such as "É", [str.lower] of "İ", which is
    two code points, [\d] of a digit of another script, [\b] next to a
    letter above 127, and the few letters above 127 that [re.I] folds onto
    ASCII ones.  The properties of the prefix path, whose result depends on
    the place found in [text.lower()], are stated for ASCII text
    ([is_ascii]). *)

From Stdlib Require Import NArith ZArith List String Ascii Bool Lia.
From stdpp Require Import base decidable option list.
Import ListNotations.

Open Scope N_scope.

(** ** Code points and strings *)

Definition char := N.
Definition str := list char.

(** An ASCII literal of the source as a [str]. *)
Definition py (s : string) : str :=
  map N_of_ascii (list_ascii_of_string s).

Definition bullet : char := 8226.   (* U+2022, the glyph in [|•] and [-•] *)
Definition newline : char := 10.

Definition in_range (lo hi c : char) : bool := (lo <=? c) && (c <=? hi).

(** [str.isspace] of one code point, which is also what [\s] matches. *)
Definition is_space (c : char) : bool :=
  in_range 9 13 c || in_range 28 32 c || (c =? 133) || (c =? 160)
  || (c =? 5760) || in_range 8192 8202 c || (c =? 8232) || (c =? 8233)
  || (c =? 8239) || (c =? 8287) || (c =? 12288).

(* The ASCII part of \d, str.isupper and str.islower, and of \w. *)
Definition is_digit (c : char) : bool := in_range 48 57 c.
Definition is_upper (c : char) : bool := in_range 65 90 c.
Definition is_lower (c : char) : bool := in_range 97 122 c.
Definition is_word (c : char) : bool :=
  is_upper c || is_lower c || is_digit c || (c =? 95).

Definition lower_char (c : char) : char := if is_upper c then c + 32 else c.
Definition upper_char (c : char) : char := if is_lower c then c - 32 else c.

(** [s.lower()], on its ASCII part: character by character. *)
Definition lower (s : str) : str := map lower_char s.

(** ** Regular expressions

    The patterns of the program as syntax trees, and a backtracking matcher
    with the priorities of Python's [re]: the left branch of [|] first,
    greedy repetition first. *)

Inductive cls : Type :=
| One (c : char)          (* a literal character *)
| Rng (lo hi : char)      (* lo-hi inside [...] *)
| Digit                   (* \d *)
| Space                   (* \s *)
| NotSpace                (* \S *)
| Dot.                    (* .  : anything but a newline *)

Inductive regex : Type :=
| Eps
| Sym (cs : list cls)     (* one character: a literal, an escape or [...] *)
| Cat (r1 r2 : regex)
| Alt (r1 r2 : regex)     (* r1|r2 *)
| Star (r : regex)        (* r*  *)
| Bol                     (* ^  *)
| Eol                     (* $  *)
| Wb.                     (* \b *)

Definition Opt (r : regex) : regex := Alt r Eps.          (* r?  *)
Definition Plus (r : regex) : regex := Cat r (Star r).    (* r+  *)

(* r{n} *)
Fixpoint Rep (n : nat) (r : regex) : regex :=
  match n with
  | O => Eps
  | S n' => Cat r (Rep n' r)
  end.

(* r{0,n}, greedy *)
Fixpoint UpTo (n : nat) (r : regex) : regex :=
  match n with
  | O => Eps
  | S n' => Opt (Cat r (UpTo n' r))
  end.

(* r{lo,hi} and r{lo,} *)
Definition Between (lo hi : nat) (r : regex) : regex :=
  Cat (Rep lo r) (UpTo (hi - lo) r).
Definition AtLeast (lo : nat) (r : regex) : regex := Cat (Rep lo r) (Star r).

Definition Chr (c : char) : regex := Sym [One c].
(* a run of literal characters *)
Definition lit (t : str) : regex := fold_right (fun c r => Cat (Chr c) r) Eps t.
Definition Txt (s : string) : regex := lit (py s).
(* r1 r2 ... rn *)
Definition Seq (rs : list regex) : regex := fold_right Cat Eps rs.

Definition cls_has (k : cls) (c : char) : bool :=
  match k with
  | One x => c =? x
  | Rng lo hi => in_range lo hi c
  | Digit => is_digit c
  | Space => is_space c
  | NotSpace => negb (is_space c)
  | Dot => negb (c =? newline)
  end.

(** [ic] is the flag [re.I], which folds the case of ASCII letters here. *)
Definition accepts (ic : bool) (cs : list cls) (c : char) : bool :=
  existsb (fun k => cls_has k c
                    || (ic && (cls_has k (lower_char c) || cls_has k (upper_char c)))) cs.

(** A place in the subject string: the character just before it (none at the
    start) and the text from it on. *)
Record cursor : Type := Cursor { before : option char; ahead : str }.

Definition word_before (p : cursor) : bool :=
  match before p with Some c => is_word c | None => false end.
Definition word_ahead (p : cursor) : bool :=
  match ahead p with c :: _ => is_word c | [] => false end.

(** [run ic r k p]: match [r] at [p], then go on with [k]; the first success
    in priority order. *)
Fixpoint run (ic : bool) (r : regex) (k : cursor -> option cursor) (p : cursor)
  : option cursor :=
  match r with
  | Eps => k p
  | Sym cs =>
      match ahead p with
      | c :: s => if accepts ic cs c then k (Cursor (Some c) s) else None
      | [] => None
      end
  | Cat r1 r2 => run ic r1 (run ic r2 k) p
  | Alt r1 r2 =>
      match run ic r1 k p with
      | Some q => Some q
      | None => run ic r2 k p
      end
  | Star r1 =>
      (fix loop (fuel : nat) (p : cursor) {struct fuel} : option cursor :=
         match fuel with
         | O => k p
         | S fuel' =>
             match run ic r1
                     (fun q => if (length (ahead q) <? length (ahead p))%nat
                               then loop fuel' q else None) p with
             | Some q => Some q
             | None => k p
             end
         end) (length (ahead p)) p
  | Bol => match before p with None => k p | Some _ => None end
  | Eol =>
      match ahead p with
      | [] => k p
      | [c] => if c =? newline then k p else None
      | _ => None
      end
  | Wb => if xorb (word_before p) (word_ahead p) then k p else None
  end.

(** The length of the match of [r] that starts at [p], if there is one. *)
Definition match_at (ic : bool) (r : regex) (p : cursor) : option nat :=
  match run ic r Some p with
  | Some q => Some (length (ahead p) - length (ahead q))%nat
  | None => None
  end.

(** [re.match(r, s)]: the matched text. *)
Definition re_match (ic : bool) (r : regex) (s : str) : option str :=
  match match_at ic r (Cursor None s) with
  | Some n => Some (take n s)
  | None => None
  end.

(** [re.search(r, s)]: is there a match anywhere? *)
Fixpoint search_from (ic : bool) (r : regex) (b : option char) (s : str) : bool :=
  match match_at ic r (Cursor b s) with
  | Some _ => true
  | None =>
      match s with
      | [] => false
      | c :: s' => search_from ic r (Some c) s'
      end
  end.
Definition re_search (ic : bool) (r : regex) (s : str) : bool :=
  search_from ic r None s.

(** The scans below walk the subject once, left to right; [skip] counts the
    characters still inside the match found last.  Every pattern the
    program scans with needs at least one character ([min_len] below), so a
    match of length zero does not occur and is treated as no match. *)

(** [re.sub(r, repl, s)] *)
Fixpoint sub_scan (ic : bool) (r : regex) (repl : str)
    (b : option char) (s : str) (skip : nat) {struct s} : str :=
  match s with
  | [] => []
  | c :: s' =>
      match skip with
      | S n => sub_scan ic r repl (Some c) s' n
      | O =>
          match match_at ic r (Cursor b s) with
          | Some (S n) => repl ++ sub_scan ic r repl (Some c) s' n
          | _ => c :: sub_scan ic r repl (Some c) s' 0
          end
      end
  end.
Definition re_sub (ic : bool) (r : regex) (repl : str) (s : str) : str :=
  sub_scan ic r repl None s 0.

(** [re.findall(r, s)] for a pattern without groups: the matched texts. *)
Fixpoint findall_scan (ic : bool) (r : regex)
    (b : option char) (s : str) (skip : nat) {struct s} : list str :=
  match s with
  | [] => []
  | c :: s' =>
      match skip with
      | S n => findall_scan ic r (Some c) s' n
      | O =>
          match match_at ic r (Cursor b s) with
          | Some (S n) => take (S n) s :: findall_scan ic r (Some c) s' n
          | _ => findall_scan ic r (Some c) s' 0
          end
      end
  end.
Definition re_findall (ic : bool) (r : regex) (s : str) : list str :=
  findall_scan ic r None s 0.

(** [re.split(r, s)] for a pattern without groups: the pieces between the
    matches, empty ones included. *)
Fixpoint split_scan (ic : bool) (r : regex)
    (b : option char) (s : str) (skip : nat) (piece : str) {struct s} : list str :=
  match s with
  | [] => [piece]
  | c :: s' =>
      match skip with
      | S n => split_scan ic r (Some c) s' n piece
      | O =>
          match match_at ic r (Cursor b s) with
          | Some (S n) => piece :: split_scan ic r (Some c) s' n []
          | _ => split_scan ic r (Some c) s' 0 (piece ++ [c])
          end
      end
  end.
Definition re_split (ic : bool) (r : regex) (s : str) : list str :=
  split_scan ic r None s 0 [].

(** The least number of characters a match of [r] takes. *)
Fixpoint min_len (r : regex) : nat :=
  match r with
  | Eps | Bol | Eol | Wb | Star _ => 0
  | Sym _ => 1
  | Cat r1 r2 => min_len r1 + min_len r2
  | Alt r1 r2 => Nat.min (min_len r1) (min_len r2)
  end.

(** ** Python's [str] methods *)

Definition str_eqb (s t : str) : bool := bool_decide (s = t).
(** [not xs] for a string or a list *)
Definition is_empty {A : Type} (xs : list A) : bool :=
  match xs with [] => true | _ => false end.

(** [x in xs] for a set or list of strings *)
Definition mem (x : str) (xs : list str) : bool := existsb (str_eqb x) xs.

Fixpoint lstrip_with (f : char -> bool) (s : str) : str :=
  match s with
  | c :: s' => if f c then lstrip_with f s' else s
  | [] => []
  end.
Definition rstrip_with (f : char -> bool) (s : str) : str :=
  rev (lstrip_with f (rev s)).
Definition strip_with (f : char -> bool) (s : str) : str :=
  rstrip_with f (lstrip_with f s).

(** [s.strip()] and [s.strip(chars)] *)
Definition strip (s : str) : str := strip_with is_space s.
Definition strip_chars (chars : str) (s : str) : str :=
  strip_with (fun c => existsb (N.eqb c) chars) s.

(** [s.split()]: the maximal runs of non-whitespace. *)
Fixpoint split_ws_from (s : str) (word : str) : list str :=
  match s with
  | [] => match word with [] => [] | _ => [word] end
  | c :: s' =>
      if is_space c
      then match word with
           | [] => split_ws_from s' []
           | _ => word :: split_ws_from s' []
           end
      else split_ws_from s' (word ++ [c])
  end.
Definition split_ws (s : str) : list str := split_ws_from s [].

(** [sep.join(parts)] *)
Fixpoint join (sep : str) (parts : list str) : str :=
  match parts with
  | [] => []
  | [p] => p
  | p :: ps => p ++ sep ++ join sep ps
  end.

Fixpoint starts_with (needle hay : str) : bool :=
  match needle, hay with
  | [], _ => true
  | c :: n', d :: h' => (c =? d) && starts_with n' h'
  | _ :: _, [] => false
  end.

(** [hay.find(needle)]: the lowest index, [None] for Python's -1;
    [needle in hay] is [find] giving an index. *)
Fixpoint find (needle hay : str) : option nat :=
  if starts_with needle hay then Some O
  else match hay with
       | [] => None
       | _ :: h' => option_map S (find needle h')
       end.

(** [needle in hay] *)
Definition contains (needle hay : str) : bool :=
  match find needle hay with Some _ => true | None => false end.

(** [s.replace(',', '')] *)
Definition remove_commas (s : str) : str := filter (fun c => c <> 44) s.

(** ** Errors

    The only exception the modelled code could raise is the [IndexError] of
    a subscript ([chunk[0]], [scored_chunks[0]]). *)

Inductive result (A : Type) : Type :=
| Ok (a : A)
| IndexError.
Arguments Ok {A} a.
Arguments IndexError {A}.

Definition bind {A B : Type} (m : result A) (k : A -> result B) : result B :=
  match m with
  | Ok a => k a
  | IndexError => IndexError
  end.
Notation "x <- m ;; k" := (bind m (fun x => k))
  (at level 100, m at next level, right associativity).

(** ** PayeeExtractor *)

Definition NOISE_KEYWORDS : list str :=
  [ py "paypal"; py "balance"; py "usd"; py "id:"; py "ref id:";
    py "individual id:"; py "general"; py "mastercard"; py "debit";
    py "preapproved payment"; py "bill user payment" ].

Definition PAYEE_PREFIXES : list str :=
  [ py "Transaction:";
    py "Direct Deposit:";
    py "PreApproved Payment Bill User Payment:";
    py "Payment to:";
    py "Payment from:" ].

Definition digit : regex := Sym [Digit].
Definition space : regex := Sym [Space].
Definition AZ : regex := Sym [Rng 65 90].
Definition az : regex := Sym [Rng 97 122].

(* [-+]?\$?\d{1,3}(?:,\d{3})*\.\d{2} *)
Definition AMOUNT_IN_TEXT : regex :=
  Seq [ Opt (Sym [One 45; One 43]); Opt (Chr 36);
        Between 1 3 digit;
        Star (Cat (Chr 44) (Rep 3 digit));
        Chr 46; Rep 2 digit ].

(* \b(ID|Ref ID|Individual ID):\s*\S+   with re.I *)
Definition ID_LABEL : regex :=
  Seq [ Wb; Alt (Txt "ID") (Alt (Txt "Ref ID") (Txt "Individual ID"));
        Chr 58; Star space; Plus (Sym [NotSpace]) ].

(* \s+ *)
Definition SPACES : regex := Plus space.

(* \s{2,}|[|•] *)
Definition CHUNK_SEP : regex := Alt (AtLeast 2 space) (Sym [One 124; One bullet]).

(* ' |,.-•' *)
Definition STRIP_CHARS : str := [32; 124; 44; 46; 45; bullet].

Definition _clean_text (text : str) : str :=
  (* Remove amounts (numbers with decimals and commas) *)
  let cleaned := re_sub false AMOUNT_IN_TEXT [] text in
  (* Remove ID patterns *)
  let cleaned := re_sub true ID_LABEL [] cleaned in
  (* Remove leading/trailing punctuation and whitespace *)
  let cleaned := strip_chars STRIP_CHARS cleaned in
  (* Check if chunk is mostly noise *)
  let words := split_ws (lower cleaned) in
  if forallb (fun word => mem word NOISE_KEYWORDS)
             (filter (fun word => is_empty word = false) words)
  then []
  else
    (* Remove noise words but keep the rest *)
    let filtered_words :=
      filter (fun w => mem (lower w) NOISE_KEYWORDS = false) (split_ws cleaned) in
    let result := strip (join (py " ") filtered_words) in
    (* Normalize whitespace *)
    re_sub false SPACES (py " ") result.

Definition location_patterns : list regex :=
  [ (* \b[A-Z][a-z]+,\s*[A-Z]{2}\b *)
    Seq [Wb; AZ; Plus az; Chr 44; Star space; Rep 2 AZ; Wb];
    (* \b[A-Z]{2}\s*\d{5}\b *)
    Seq [Wb; Rep 2 AZ; Star space; Rep 5 digit; Wb] ].

Definition merchant_patterns : list regex :=
  [ (* \b[A-Z]+\s+[A-Z]+ *)
    Seq [Wb; Plus AZ; Plus space; Plus AZ];
    (* \bI-n\d+\b *)
    Seq [Wb; Txt "I-n"; Plus digit; Wb];
    (* \b#\d+\b *)
    Seq [Wb; Chr 35; Plus digit; Wb] ].

(** [_score_chunk] after its length bonus. *)
Definition score_after_length (chunk : str) (score : Z) : result Z :=
  (* Capitalization patterns: chunk[0].isupper() *)
  first <- match chunk with c :: _ => Ok c | [] => IndexError end ;;
  let score := if is_upper first then (score + 3)%Z else score in
  (* Has multiple capital letters *)
  let score :=
    if (3 <=? length (filter (fun c => is_upper c = true) chunk))%nat
    then (score + 4)%Z else score in
  (* Contains location indicators (city, state) *)
  let score :=
    if existsb (fun p => re_search false p chunk) location_patterns
    then (score + 6)%Z else score in
  (* Contains merchant-like identifiers *)
  let score :=
    if existsb (fun p => re_search false p chunk) merchant_patterns
    then (score + 3)%Z else score in
  (* Penalty for remaining noise words *)
  let noise_count :=
    length (filter (fun word => mem word NOISE_KEYWORDS = true)
                   (split_ws (lower chunk))) in
  Ok (score - Z.of_nat noise_count * 2)%Z.

Definition _score_chunk (chunk : str) : result Z :=
  let score := 0%Z in
  (* Length bonus (prefer substantial text) *)
  if (10 <? length chunk)%nat then score_after_length chunk (score + 5)%Z
  else if (5 <? length chunk)%nat then score_after_length chunk (score + 2)%Z
  else if (length chunk <? 3)%nat then Ok 0%Z   (* Too short *)
  else score_after_length chunk score.

(** [scored_chunks.sort(reverse=True, key=lambda x: x[0])]: Python's sort
    is stable, also with [reverse=True]: pairs of equal score keep the order
    they were appended in. *)
Fixpoint insert_desc (x : Z * str) (l : list (Z * str)) : list (Z * str) :=
  match l with
  | [] => [x]
  | y :: l' => if (fst x <? fst y)%Z then y :: insert_desc x l' else x :: l
  end.
Definition sort_desc (l : list (Z * str)) : list (Z * str) :=
  fold_right insert_desc [] l.

(** The [for chunk in chunks] loop of [_extract_intelligent]. *)
Fixpoint score_chunks (chunks : list str) : result (list (Z * str)) :=
  match chunks with
  | [] => Ok []
  | chunk :: chunks' =>
      let chunk := _clean_text chunk in
      if is_empty chunk then score_chunks chunks'
      else
        score <- _score_chunk chunk ;;
        scored <- score_chunks chunks' ;;
        Ok (if (0 <? score)%Z then (score, chunk) :: scored else scored)
  end.

Definition _extract_intelligent (description : str) : result str :=
  (* Split into chunks by various delimiters *)
  let chunks := re_split false CHUNK_SEP description in
  scored_chunks <- score_chunks chunks ;;
  (* Return highest scoring chunk, or first substantial one *)
  match scored_chunks with
  | _ :: _ =>
      match sort_desc scored_chunks with
      | (_, chunk) :: _ => Ok chunk
      | [] => IndexError
      end
  | [] =>
      (* Ultimate fallback *)
      let cleaned := take 80 (_clean_text description) in
      Ok (if is_empty cleaned then py "Unknown" else cleaned)
  end.

(** The [for prefix in PAYEE_PREFIXES] loop of [_extract_after_prefix]. *)
Fixpoint after_prefix (prefixes : list str) (text : str) : option str :=
  match prefixes with
  | [] => None
  | prefix :: prefixes' =>
      match find (lower prefix) (lower text) with
      | Some idx =>
          let after := strip (drop (idx + length prefix) text) in
          (* Clean up the extracted text *)
          let cleaned := _clean_text after in
          if is_empty cleaned then after_prefix prefixes' text else Some cleaned
      | None => after_prefix prefixes' text
      end
  end.
Definition _extract_after_prefix (text : str) : option str :=
  after_prefix PAYEE_PREFIXES text.

Definition extract (description : str) : result str :=
  if is_empty description || is_empty (strip description) then Ok (py "Unknown")
  else
    (* First, try to extract after known prefixes *)
    match _extract_after_prefix description with
    | Some payee =>
        if is_empty payee then _extract_intelligent description else Ok payee
    | None =>
        (* If no prefix found, extract the most significant text chunk *)
        _extract_intelligent description
    end.

(** ** Transaction *)

Record Transaction : Type := mkTransaction {
  date : str;
  description : str;
  currency : str;
  amount : str;
  fees : str;
  total : str }.

(** [Transaction(date=d)], with the defaults of the dataclass. *)
Definition new_transaction (d : str) : Transaction :=
  mkTransaction d [] (py "USD") (py "0.00") (py "0.00") (py "0.00").

Definition set_description (v : str) (t : Transaction) : Transaction :=
  mkTransaction (date t) v (currency t) (amount t) (fees t) (total t).
Definition set_amount (v : str) (t : Transaction) : Transaction :=
  mkTransaction (date t) (description t) (currency t) v (fees t) (total t).
(** [t.total = t.amount] *)
Definition set_total_from_amount (t : Transaction) : Transaction :=
  mkTransaction (date t) (description t) (currency t) (amount t) (fees t) (amount t).

(** [t.clean_payee] *)
Definition clean_payee (t : Transaction) : result str := extract (description t).

(** ** PayPalPDFParser *)

(* ^(\d{1,2}/\d{1,2}/\d{4}) *)
Definition DATE_PATTERN : regex :=
  Seq [ Bol; Between 1 2 digit; Chr 47; Between 1 2 digit; Chr 47; Rep 4 digit ].

(* [-+]?\d{1,3}(?:,\d{3})*\.\d{2} *)
Definition AMOUNT_PATTERN : regex :=
  Seq [ Opt (Sym [One 45; One 43]);
        Between 1 3 digit;
        Star (Cat (Chr 44) (Rep 3 digit));
        Chr 46; Rep 2 digit ].

Definition any_text : regex := Star (Sym [Dot]).   (* .* *)

(** Searched with [re.I]. *)
Definition JUNK_PATTERNS : list regex :=
  [ Cat (Txt "PayPal Balance") any_text;
    Cat (Txt "ID:") any_text;
    Cat (Txt "Individual ID:") any_text;
    Cat (Txt "Ref ID:") any_text;
    Seq [Bol; Txt "General PayPal Debit Mastercard"; Star space; Eol];
    Seq [Bol; Txt "PreApproved Payment Bill User Payment:"; Star space; Eol];
    Seq [Bol; Txt "General"; Star space; Eol];
    Seq [Bol; Txt "Transaction"; Opt (Chr 58); Star space; Eol];
    Seq [Bol; Txt "Direct Deposit"; Opt (Chr 58); Star space; Eol];
    Seq [Bol; Sym [One 45; One bullet]; Star space; Eol];
    Seq [Bol; Star space; Eol] ].

(* ^[-•]\s* *)
Definition LEADING_MARK : regex := Seq [Bol; Sym [One 45; One bullet]; Star space].

Definition _is_junk_line (line : str) : bool :=
  existsb (fun pattern => re_search true pattern line) JUNK_PATTERNS.

Definition _clean_description (parts : list str) : str :=
  let full_desc := strip (join (py " ") parts) in
  re_sub false SPACES (py " ") full_desc.

(** The state of [parse].  [Transaction] objects are mutable and the list
    [transactions] holds references to them, so the state keeps the objects
    in a heap, addressed by position, and the variables hold addresses. *)
Record parser : Type := mkParser {
  heap : list Transaction;
  transactions : list nat;
  current_transaction : option nat;
  desc_parts : list str }.

Definition parse_start : parser := mkParser [] [] None [].

(** [current_transaction.description = self._clean_description(desc_parts)]
    and [transactions.append(current_transaction)], when there is a current
    transaction. *)
Definition save_current (st : parser) : parser :=
  match current_transaction st with
  | Some addr =>
      mkParser (alter (set_description (_clean_description (desc_parts st))) addr (heap st))
               (transactions st ++ [addr])
               (current_transaction st) (desc_parts st)
  | None => st
  end.

(** [obj.amount = amounts[-1].replace(',', '')] and [obj.total = obj.amount],
    when [amounts] is not empty. *)
Definition assign_amount (amounts : list str) (addr : nat) (h : list Transaction)
  : list Transaction :=
  match last amounts with
  | Some a => alter set_total_from_amount addr (alter (set_amount (remove_commas a)) addr h)
  | None => h
  end.

(** One turn of [for line in lines]. *)
Definition parse_line (st : parser) (line : str) : parser :=
  (* Skip junk lines *)
  if _is_junk_line line then st
  else
    (* Check for date (new transaction) *)
    match re_match false DATE_PATTERN line with
    | Some d =>
        (* Save previous transaction *)
        let st := save_current st in
        (* Start new transaction *)
        let addr := length (heap st) in
        let h := heap st ++ [new_transaction d] in
        let rest := strip (drop (length d) line) in
        let parts := if is_empty rest then [] else [rest] in
        (* Extract amount from first line if present *)
        let amounts := re_findall false AMOUNT_PATTERN rest in
        mkParser (assign_amount amounts addr h) (transactions st) (Some addr) parts
    | None =>
        (* Add to current transaction description *)
        match current_transaction st with
        | Some addr =>
            let amounts := re_findall false AMOUNT_PATTERN line in
            let unset :=   (* not current_transaction.amount *)
              match heap st !! addr with
              | Some t => is_empty (amount t)
              | None => false
              end in
            let h := if negb (is_empty amounts) && unset
                     then assign_amount amounts addr (heap st)
                     else heap st in
            (* Clean and add non-amount text *)
            let clean_text := strip (re_sub false AMOUNT_PATTERN [] line) in
            let clean_text := re_sub false LEADING_MARK [] clean_text in
            let parts :=
              if negb (is_empty clean_text) && (2 <? length clean_text)%nat
              then desc_parts st ++ [clean_text]
              else desc_parts st in
            mkParser h (transactions st) (Some addr) parts
        | None => st
        end
    end.

(** [[line.strip() for line in text.splitlines() if line.strip()]], from the
    lines of a page's text. *)
Definition page_lines (page : list str) : list str :=
  filter (fun line => is_empty line = false) (map strip page).

(** The loops of [parse] over the pages and their lines, and the saving of
    the final transaction. *)
Definition parse_pages (pages : list (list str)) : parser :=
  save_current
    (fold_left (fun st page => fold_left parse_line (page_lines page) st)
               pages parse_start).

(** What a list of references shows: the objects they point to now. *)
Definition view (h : list Transaction) (refs : list nat) : list Transaction :=
  omap (fun addr => h !! addr) refs.

(** [parse]: the returned list, read after the call. *)
Definition parse (pages : list (list str)) : list Transaction :=
  let st := parse_pages pages in view (heap st) (transactions st).


(** The list the line loops walk: the lines of all the pages, in order. *)
Definition all_lines (pages : list (list str)) : list str :=
  flat_map page_lines pages.

(** [parse] of one run of lines that are already stripped and not blank. *)
Definition parse_lines (lines : list str) : list Transaction :=
  let st := save_current (fold_left parse_line lines parse_start) in
  view (heap st) (transactions st).

(** ** The "#number" reference of the scoring table

    Following the words of the table of section 4.3, which gives +3 to a
    chunk that contains a "#number" reference: a "#" with a digit right
    after it, anywhere in the chunk. *)

Fixpoint hash_number_reference (chunk : str) : bool :=
  match chunk with
  | [] => false
  | c :: rest =>
      (c =? 35) && match rest with d :: _ => is_digit d | [] => false end
      || hash_number_reference rest
  end.

(** ** ASCII text

    [text.isascii()].  On such a text the ASCII reading of [str.lower],
    [str.isupper], [\d], [\b] and [re.I] is all there is, and
    [text.lower()] has every character at its place in [text]. *)

Definition is_ascii (text : str) : bool := forallb (fun c => c <? 128) text.

(** ** What a parser state denotes

    The content of a heap state: the transactions saved so far as values,
    the value of the open transaction, and the parts of its description;
    and the effect of a line on that content. *)

Record content : Type := Content {
  saved : list Transaction;
  opened : option Transaction;
  parts : list str }.

Definition content_of (st : parser) : content :=
  Content (view (heap st) (transactions st))
          (match current_transaction st with
           | Some addr => heap st !! addr
           | None => None
           end)
          (desc_parts st).

(** The transaction a state saves when the next date line or the end of the
    input closes it. *)
Definition closed (c : content) : list Transaction :=
  match opened c with
  | Some t => [set_description (_clean_description (parts c)) t]
  | None => []
  end.

Definition assign_value (amounts : list str) (t : Transaction) : Transaction :=
  match last amounts with
  | Some a => set_total_from_amount (set_amount (remove_commas a) t)
  | None => t
  end.

(** The text of a date line after its date, the text a continuation line
    adds to the description, and the parts with that text added. *)
Definition line_rest (d line : str) : str := strip (drop (length d) line).
Definition non_amount_text (line : str) : str :=
  re_sub false LEADING_MARK [] (strip (re_sub false AMOUNT_PATTERN [] line)).
Definition add_part (ps : list str) (clean_text : str) : list str :=
  if negb (is_empty clean_text) && (2 <? length clean_text)%nat
  then ps ++ [clean_text] else ps.

Definition line_effect (c : content) (line : str) : content :=
  if _is_junk_line line then c
  else
    match re_match false DATE_PATTERN line with
    | Some d =>
        let rest := line_rest d line in
        Content (saved c ++ closed c)
                (Some (assign_value (re_findall false AMOUNT_PATTERN rest)
                                    (new_transaction d)))
                (if is_empty rest then [] else [rest])
    | None =>
        match opened c with
        | Some t =>
            let amounts := re_findall false AMOUNT_PATTERN line in
            Content (saved c)
                    (Some (if negb (is_empty amounts) && is_empty (amount t)
                           then assign_value amounts t else t))
                    (add_part (parts c) (non_amount_text line))
        | None => c
        end
    end.

Definition no_content : content := Content [] None [].

(** The content after a run of lines. *)
Definition content_after (lines : list str) : content :=
  fold_left line_effect lines no_content.

(** The transaction a date line opens and the parts it starts with. *)
Definition opened_by (d line : str) : Transaction :=
  assign_value (re_findall false AMOUNT_PATTERN (line_rest d line)) (new_transaction d).
Definition first_parts (d line : str) : list str :=
  if is_empty (line_rest d line) then [] else [line_rest d line].

(** [total] follows [amount], and [fees] keeps its default. *)
Definition balanced (t : Transaction) : Prop :=
  total t = amount t /\ fees t = py "0.00".

(** An amount that is not the empty string: what Python takes for true. *)
Definition amount_is_set (t : Transaction) : Prop := amount t <> [].

(** The cleaned text after the first occurrence of a prefix, empty when the
    prefix does not occur: what [_extract_after_prefix] looks at for it. *)
Definition cleaned_after (prefix text : str) : str :=
  match find (lower prefix) (lower text) with
  | Some idx => _clean_text (strip (drop (idx + length prefix) text))
  | None => []
  end.

(** A word: not empty and without whitespace. *)
Definition is_a_word (w : str) : Prop :=
  w <> [] /\ Forall (fun c => is_space c = false) w.

(** A state whose references are all live and whose open transaction is not
    in the list yet. *)
Definition well_formed (st : parser) : Prop :=
  Forall (fun addr => (addr < length (heap st))%nat) (transactions st)
  /\ match current_transaction st with
     | Some addr => (addr < length (heap st))%nat /\ addr ∉ transactions st
     | None => True
     end.

(** The state after the lines read so far. *)
Definition read_lines (lines : list str) : parser :=
  fold_left parse_line lines parse_start.

(** A line that opens a transaction: not junk, and starting with a date. *)
Definition anchor (line : str) : option str :=
  if _is_junk_line line then None else re_match false DATE_PATTERN line.

(** The lines up to the next anchor, and the lines from it on. *)
Fixpoint until_anchor (lines : list str) : list str :=
  match lines with
  | [] => []
  | l :: lines' => match anchor l with
                   | Some _ => []
                   | None => l :: until_anchor lines'
                   end
  end.
Fixpoint from_anchor (lines : list str) : list str :=
  match lines with
  | [] => []
  | l :: lines' => match anchor l with
                   | Some _ => lines
                   | None => from_anchor lines'
                   end
  end.

(** ** Notions the properties are stated with *)

(** What a chunk of the description enters the ranking with: its cleaned
    text and its score, if the text is not empty and the score is above 0. *)
Definition ranked (chunk : str) : option (Z * str) :=
  let cleaned := _clean_text chunk in
  if is_empty cleaned then None
  else match _score_chunk cleaned with
       | Ok score => if (0 <? score)%Z then Some (score, cleaned) else None
       | IndexError => None
       end.

(** A list of scored chunks in descending order of score. *)
Definition descending (l : list (Z * str)) : Prop :=
  forall i j x y, (i < j)%nat -> l !! i = Some x -> l !! j = Some y -> (fst y <= fst x)%Z.

(** The text a line adds to the description of the open transaction when
    it does not start one: none for a junk line and for a text of one or two
    characters. *)
Definition kept_text (line : str) : option str :=
  if _is_junk_line line then None
  else
    let clean_text := non_amount_text line in
    if negb (is_empty clean_text) && (2 <? length clean_text)%nat
    then Some clean_text else None.

(** The fields the line loop fills in besides the description: the currency
    is the default, the date has the length of a date, and the amount is
    not empty and has no comma. *)
Definition plain_fields (t : Transaction) : Prop :=
  currency t = py "USD"
  /\ (8 <= length (date t) <= 10)%nat
  /\ amount t <> []
  /\ Forall (fun c => c <> 44) (amount t).

(** A text that is its words with one space between them. *)
Definition single_spaced (s : str) : Prop := s = join (py " ") (split_ws s).

(** The most characters a match of [r] takes, when the pattern bounds it. *)
Fixpoint max_len (r : regex) : option nat :=
  match r with
  | Eps | Bol | Eol | Wb => Some O
  | Sym _ => Some 1%nat
  | Cat r1 r2 =>
      match max_len r1, max_len r2 with
      | Some m1, Some m2 => Some (m1 + m2)%nat
      | _, _ => None
      end
  | Alt r1 r2 =>
      match max_len r1, max_len r2 with
      | Some m1, Some m2 => Some (Nat.max m1 m2)
      | _, _ => None
      end
  | Star _ => None
  end.

(** The noise keywords that are one word: the others contain a space. *)
Definition NOISE_WORDS : list str :=
  [ py "paypal"; py "balance"; py "usd"; py "id:"; py "general";
    py "mastercard"; py "debit" ].

(** ** Transaction rows and CSVWriter

    [Transaction.to_row], and the rows [CSVWriter.write] hands to
    [csv.writer]: [HEADERS] by [writerow], then the row of every transaction
    by [writerows].  The file and the encoding of a row into a line are the
    library's and are not modelled. *)

Definition to_row (t : Transaction) : result (list str) :=
  payee <- clean_payee t ;;
  Ok [date t; description t; currency t; amount t; fees t; total t; payee].

Definition HEADERS : list str :=
  [ py "Date"; py "Full Description"; py "Currency"; py "Amount"; py "Fees";
    py "Total"; py "Clean Transaction/Payee" ].

Fixpoint to_rows (transactions : list Transaction) : result (list (list str)) :=
  match transactions with
  | [] => Ok []
  | t :: transactions' =>
      row <- to_row t ;;
      rows <- to_rows transactions' ;;
      Ok (row :: rows)
  end.

Definition written_rows (transactions : list Transaction) : result (list (list str)) :=
  rows <- to_rows transactions ;;
  Ok (HEADERS :: rows).

(** * Properties *)

(** ** The scenarios of the specification, run *)

Example scenario_A :
  parse [[py "12/01/2025 Payment to: Island Vibes Lounge -25.00"; py "ID: 8AB123"]]
  = [mkTransaction (py "12/01/2025") (py "Payment to: Island Vibes Lounge -25.00")
                   (py "USD") (py "-25.00") (py "0.00") (py "-25.00")]
  /\ extract (py "Payment to: Island Vibes Lounge -25.00") = Ok (py "Island Vibes Lounge").
Proof. split; vm_compute; reflexivity. Qed.

Example scenario_B_payee :
  extract (py "Direct Deposit: ACME PAYROLL SERVICES LLC")
  = Ok (py "ACME PAYROLL SERVICES LLC").
Proof. vm_compute. reflexivity. Qed.

Example all_noise_chunk : _clean_text (py "PayPal Balance USD") = [].
Proof. vm_compute. reflexivity. Qed.

Example unknown_fallback : extract (py "   ") = Ok (py "Unknown").
Proof. vm_compute. reflexivity. Qed.

Example highest_score_wins :
  extract (py "coffee shop | ISLAND VIBES LOUNGE | Austin, TX 78701")
  = Ok (py "Austin, TX 78701").
Proof. vm_compute. reflexivity. Qed.

(** ** The matcher and the scans *)

Section Matching.
Variable ic : bool.

(** Where [run] succeeds, it went on from a place that lies at least
    [min_len r] characters further. *)
Lemma run_consumes (r : regex) :
  forall k p q,
    run ic r k p = Some q ->
    exists p', k p' = Some q
               /\ (length (ahead p') + min_len r <= length (ahead p))%nat.
Proof.
  induction r as [|cs|r1 IH1 r2 IH2|r1 IH1 r2 IH2|r1 IH1| | |];
    intros k p q; cbn [run min_len].
  - intros H. exists p. split; [done|lia].
  - destruct (ahead p) as [|c s] eqn:Hp; [done|].
    destruct (accepts ic cs c); [|done]. intros H.
    exists (Cursor (Some c) s). split; [done|]. cbn [ahead length]. lia.
  - intros H. apply IH1 in H as (p1 & H & L1). apply IH2 in H as (p2 & H & L2).
    exists p2. split; [done|lia].
  - destruct (run ic r1 k p) as [q1|] eqn:H1.
    + intros [= <-]. apply IH1 in H1 as (p' & H & L). exists p'. split; [done|lia].
    + intros H. apply IH2 in H as (p' & H & L). exists p'. split; [done|lia].
  - generalize (length (ahead p)) at 1. intros fuel. revert p q.
    induction fuel as [|fuel IHf]; intros p q H.
    + exists p. split; [done|lia].
    + match type of H with
      | match ?e with Some _ => _ | None => _ end = _ => destruct e as [q1|] eqn:H1
      end.
      * injection H as <-. apply IH1 in H1 as (p1 & H1 & L1).
        destruct (length (ahead p1) <? length (ahead p))%nat eqn:Hlt; [|done].
        apply Nat.ltb_lt in Hlt. apply IHf in H1 as (p' & H & L).
        exists p'. split; [done|lia].
      * exists p. split; [done|lia].
  - destruct (before p); [done|]. intros H. exists p. split; [done|lia].
  - intros H. exists p. split; [|lia].
    destruct (ahead p) as [|c [|]]; [done| |done].
    by destruct (c =? newline).
  - destruct (xorb _ _); [|done]. intros H. exists p. split; [done|lia].
Qed.

Lemma match_at_min_len (r : regex) (p : cursor) (n : nat) :
  match_at ic r p = Some n -> (min_len r <= n <= length (ahead p))%nat.
Proof.
  unfold match_at. destruct (run ic r Some p) as [q|] eqn:H; [|done].
  intros [= <-]. apply run_consumes in H as (p' & [= ->] & L). lia.
Qed.

(** [r*] followed by something that cannot fail cannot fail. *)
Lemma run_star_total (r : regex) (k : cursor -> option cursor) :
  (forall p, k p <> None) -> forall p, run ic (Star r) k p <> None.
Proof.
  intros Hk p. simpl. generalize (length (ahead p)). intros fuel. revert p.
  induction fuel as [|fuel IH]; intros p; [apply Hk|].
  match goal with |- context [match ?e with Some q => Some q | None => k p end] =>
    destruct e end; [done|apply Hk].
Qed.

(** Where a pattern matches nowhere, [re.sub] changes nothing. *)
Lemma sub_scan_no_match (r : regex) (repl : str) (s : str) :
  forall b, search_from ic r b s = false -> sub_scan ic r repl b s 0 = s.
Proof.
  induction s as [|c s IH]; intros b; [done|]. cbn [search_from sub_scan].
  destruct (match_at ic r (Cursor b (c :: s))); [done|].
  intros H. by rewrite IH.
Qed.

(** The pieces [re.split] returns are pieces of the subject, from left to
    right. *)
Lemma split_scan_in_order (r : regex) (s : str) :
  forall b skip piece,
    exists kept, concat (split_scan ic r b s skip piece) = piece ++ kept
                 /\ kept `sublist_of` s.
Proof.
  induction s as [|c s IH]; intros b skip piece; cbn [split_scan].
  - exists []. split; [by cbn; rewrite !app_nil_r|done].
  - destruct skip as [|skip].
    + destruct (match_at ic r (Cursor b (c :: s))) as [[|n]|].
      * destruct (IH (Some c) O (piece ++ [c])) as (kept & -> & Hk).
        exists (c :: kept). split; [by rewrite <- app_assoc|by constructor].
      * destruct (IH (Some c) n []) as (kept & Hc & Hk).
        exists kept. split; [by cbn [concat]; rewrite Hc|by constructor].
      * destruct (IH (Some c) O (piece ++ [c])) as (kept & -> & Hk).
        exists (c :: kept). split; [by rewrite <- app_assoc|by constructor].
    + destruct (IH (Some c) skip piece) as (kept & -> & Hk).
      exists kept. split; [done|by constructor].
Qed.

Lemma re_split_in_order (r : regex) (s : str) :
  concat (re_split ic r s) `sublist_of` s.
Proof.
  destruct (split_scan_in_order r s None O []) as (kept & H & Hk).
  unfold re_split. by rewrite H.
Qed.

End Matching.

(** No pattern the program scans with ([re.sub], [re.findall], [re.split])
    has a match of length zero. *)
Lemma scanned_patterns_take_characters (ic : bool) (r : regex) (p : cursor) :
  In r [AMOUNT_IN_TEXT; ID_LABEL; SPACES; CHUNK_SEP; AMOUNT_PATTERN; LEADING_MARK] ->
  match_at ic r p <> Some O.
Proof.
  intros Hin Hm. apply match_at_min_len in Hm as [Hm _].
  cbn [In] in Hin.
  destruct Hin as [<-|[<-|[<-|[<-|[<-|[<-|[]]]]]]]; vm_compute in Hm; lia.
Qed.

(** ** Scoring *)

Lemma score_after_length_returns (chunk : str) (score : Z) :
  chunk <> [] -> exists total, score_after_length chunk score = Ok total.
Proof.
  destruct chunk as [|c chunk']; [congruence|]. intros _.
  unfold score_after_length. cbn [bind]. by eexists.
Qed.

(** [_score_chunk] does not raise: it reads [chunk[0]] only of a chunk of
    three characters or more. *)
Lemma score_chunk_returns (chunk : str) :
  exists score, _score_chunk chunk = Ok score.
Proof.
  unfold _score_chunk.
  destruct (10 <? length chunk)%nat eqn:H10.
  { apply Nat.ltb_lt in H10. apply score_after_length_returns.
    destruct chunk; simpl in *; [lia|congruence]. }
  destruct (5 <? length chunk)%nat eqn:H5.
  { apply Nat.ltb_lt in H5. apply score_after_length_returns.
    destruct chunk; simpl in *; [lia|congruence]. }
  destruct (length chunk <? 3)%nat eqn:H3; [by eexists|].
  apply Nat.ltb_ge in H3. apply score_after_length_returns.
  destruct chunk; simpl in *; [lia|congruence].
Qed.

(** C8.  The scoring departs from the table on the "#number" reference.
    The chunk "Order #123" contains one, and no merchant pattern finds it:
    [\b#\d+\b] has a word boundary before "#", so it wants a letter, a
    digit or "_" right before the "#".  The chunk scores 5 (+2 for its
    length of 10, +3 for its capital first letter) where the table's sum is
    8; "Order#123" does get the +3.  The same +3 goes to adjacent words in
    capitals ("ISLAND VIBES LOUNGE") and not to adjacent words with a
    capital first letter ("Island Vibes Lounge"). *)
Theorem number_reference_gets_no_bonus :
  hash_number_reference (py "Order #123") = true
  /\ existsb (fun p => re_search false p (py "Order #123")) merchant_patterns = false
  /\ _score_chunk (py "Order #123") = Ok 5%Z
  /\ _score_chunk (py "Order#123") = Ok 8%Z
  /\ _score_chunk (py "ISLAND VIBES LOUNGE") = Ok 15%Z
  /\ _score_chunk (py "Island Vibes Lounge") = Ok 12%Z.
Proof. repeat split; vm_compute; reflexivity. Qed.

(** ** The stable descending sort *)

Lemma insert_desc_perm (x : Z * str) (l : list (Z * str)) :
  Permutation (insert_desc x l) (x :: l).
Proof.
  induction l as [|y l IH]; simpl; [reflexivity|].
  destruct (fst x <? fst y)%Z; [|reflexivity].
  rewrite IH. apply perm_swap.
Qed.

Lemma sort_desc_perm (l : list (Z * str)) : Permutation (sort_desc l) l.
Proof.
  induction l as [|x l IH]; simpl; [reflexivity|].
  rewrite insert_desc_perm. by constructor.
Qed.

Lemma descending_cons (x : Z * str) (l : list (Z * str)) :
  descending (x :: l) <-> Forall (fun y => (fst y <= fst x)%Z) l /\ descending l.
Proof.
  split.
  - intros H. split.
    + apply Forall_lookup. intros j y Hj. by apply (H O (S j) x y); [lia| |].
    + intros i j a b Hij Hi Hj. by apply (H (S i) (S j) a b); [lia| |].
  - intros [Hall Hl] i j a b Hij Hi Hj.
    destruct j as [|j]; [lia|]. simpl in Hj.
    destruct i as [|i]; simpl in Hi.
    + injection Hi as <-. rewrite Forall_lookup in Hall. by apply (Hall j).
    + apply (Hl i j); [lia|done|done].
Qed.

Lemma insert_desc_descending (x : Z * str) (l : list (Z * str)) :
  descending l -> descending (insert_desc x l).
Proof.
  induction l as [|y l IH]; intros Hl; simpl.
  - apply descending_cons. split; [constructor|done].
  - apply descending_cons in Hl as [Hall Hl].
    destruct (fst x <? fst y)%Z eqn:Hxy.
    + apply Z.ltb_lt in Hxy. apply descending_cons. split; [|by apply IH].
      rewrite insert_desc_perm. constructor; [lia|done].
    + apply Z.ltb_ge in Hxy. apply descending_cons. split.
      * constructor; [done|]. eapply Forall_impl; [exact Hall|]. simpl. intros; lia.
      * apply descending_cons. done.
Qed.

(** The result is in descending order of score ... *)
Lemma sort_desc_descending (l : list (Z * str)) : descending (sort_desc l).
Proof.
  induction l as [|x l IH]; simpl.
  - intros i j x y _ Hi. by rewrite lookup_nil in Hi.
  - by apply insert_desc_descending.
Qed.

Lemma insert_desc_filter (v : Z) (x : Z * str) (l : list (Z * str)) :
  filter (fun y => fst y = v) (insert_desc x l) = filter (fun y => fst y = v) (x :: l).
Proof.
  induction l as [|y l IH]; simpl; [done|].
  destruct (fst x <? fst y)%Z eqn:Hxy; [|done].
  apply Z.ltb_lt in Hxy.
  rewrite filter_cons, IH, !filter_cons.
  repeat case_decide; try done; lia.
Qed.

(** ... and stable: the pairs of any one score keep their order. *)
Lemma sort_desc_stable (v : Z) (l : list (Z * str)) :
  filter (fun y => fst y = v) (sort_desc l) = filter (fun y => fst y = v) l.
Proof.
  induction l as [|x l IH]; simpl; [done|].
  rewrite insert_desc_filter, !filter_cons, IH. done.
Qed.

(** The head of the sorted list is the first pair of the highest score. *)
Lemma sort_desc_head (pre post : list (Z * str)) (x : Z * str) :
  Forall (fun y => (fst y < fst x)%Z) pre ->
  Forall (fun y => (fst y <= fst x)%Z) post ->
  exists others, sort_desc (pre ++ x :: post) = x :: others.
Proof.
  intros Hpre Hpost. induction Hpre as [|y pre Hy Hpre IH]; simpl.
  - destruct (sort_desc post) as [|z l] eqn:Hs; simpl; [by eexists|].
    assert (Hz : (fst z <= fst x)%Z).
    { rewrite Forall_forall in Hpost. apply Hpost.
      rewrite <- (sort_desc_perm post), Hs. by left. }
    destruct (fst x <? fst z)%Z eqn:Hxz; [apply Z.ltb_lt in Hxz; lia|].
    by eexists.
  - destruct IH as [others ->]. simpl.
    destruct (fst y <? fst x)%Z eqn:Hyx; [by eexists|].
    apply Z.ltb_ge in Hyx. lia.
Qed.

(** Every list of scored chunks that is not empty has such a first pair. *)
Lemma first_highest_exists (l : list (Z * str)) :
  l <> [] ->
  exists pre x post, l = pre ++ x :: post
    /\ Forall (fun y => (fst y < fst x)%Z) pre
    /\ Forall (fun y => (fst y <= fst x)%Z) post.
Proof.
  induction l as [|y l IH]; [done|]. intros _.
  destruct l as [|z l'].
  { exists [], y, []. by repeat split. }
  destruct IH as (pre & x & post & Hl & Hpre & Hpost); [done|].
  destruct (Z_lt_le_dec (fst y) (fst x)) as [Hlt|Hle].
  - exists (y :: pre), x, post. rewrite Hl. split; [done|]. split; [by constructor|done].
  - exists [], y, (z :: l'). split; [done|]. split; [constructor|].
    rewrite Hl. apply Forall_app. split.
    + eapply Forall_impl; [exact Hpre|]. simpl. intros; lia.
    + constructor; [done|]. eapply Forall_impl; [exact Hpost|]. simpl. intros; lia.
Qed.

(** ** [extract] never raises and never returns the empty string *)

Lemma score_chunks_ok (chunks : list str) :
  exists scored, score_chunks chunks = Ok scored
    /\ Forall (fun y => snd y <> [] /\ (0 < fst y)%Z) scored.
Proof.
  induction chunks as [|chunk chunks (scored & IH & Hall)]; simpl.
  - by exists [].
  - destruct (_clean_text chunk) as [|c cleaned] eqn:Hc; simpl; [by exists scored|].
    destruct (score_chunk_returns (c :: cleaned)) as [score ->].
    rewrite IH. simpl.
    destruct (0 <? score)%Z eqn:Hpos; [|by exists scored].
    apply Z.ltb_lt in Hpos. eexists; split; [done|]. by constructor.
Qed.

Lemma extract_intelligent_ok (description : str) :
  exists payee, _extract_intelligent description = Ok payee /\ payee <> [].
Proof.
  unfold _extract_intelligent.
  destruct (score_chunks_ok (re_split false CHUNK_SEP description))
    as (scored & -> & Hall). simpl.
  destruct scored as [|x scored].
  - destruct (take 80 (_clean_text description)); simpl; by eexists.
  - pose proof (sort_desc_perm (x :: scored)) as Hperm.
    destruct (sort_desc (x :: scored)) as [|[score chunk] others].
    + by apply Permutation_nil_cons in Hperm.
    + exists chunk. split; [done|].
      rewrite Forall_forall in Hall.
      apply (Hall (score, chunk)). rewrite <- Hperm. by left.
Qed.

Lemma lstrip_with_all (f : char -> bool) (s : str) :
  forallb f s = true -> lstrip_with f s = [].
Proof.
  induction s as [|c s IH]; simpl; [done|].
  destruct (f c); simpl; [done|discriminate].
Qed.

Lemma strip_blank (s : str) : forallb is_space s = true -> strip s = [].
Proof.
  intros H. unfold strip, strip_with. by rewrite (lstrip_with_all _ _ H).
Qed.

(** C3. For every string, [extract] returns (it does not raise) a string
    that is not empty; for an empty or all-whitespace description the
    string is "Unknown". *)
Theorem extract_total_nonempty (description : str) :
  exists payee, extract description = Ok payee /\ payee <> []
    /\ (forallb is_space description = true -> payee = py "Unknown").
Proof.
  unfold extract.
  destruct (is_empty description || is_empty (strip description)) eqn:Hblank.
  { exists (py "Unknown"). by repeat split. }
  assert (Hns : forallb is_space description = true -> False).
  { intros H. rewrite (strip_blank _ H) in Hblank. simpl in Hblank.
    by rewrite orb_true_r in Hblank. }
  destruct (extract_intelligent_ok description) as (payee & Hp & Hne).
  destruct (_extract_after_prefix description) as [[|c found]|]; simpl.
  - exists payee. repeat split; [done|done|]. intros H. by destruct Hns.
  - exists (c :: found). repeat split; [done|]. intros H. by destruct Hns.
  - exists payee. repeat split; [done|done|]. intros H. by destruct Hns.
Qed.

Lemma extract_total_nonempty_blank :
  exists payee, extract (py "   ") = Ok payee /\ payee <> [] /\ payee = py "Unknown".
Proof.
  destruct (extract_total_nonempty (py "   ")) as (payee & H1 & H2 & H3).
  exists payee. repeat split; [exact H1|exact H2|]. apply H3. reflexivity.
Defined.

(** ** Ties between chunks *)

(** The loop keeps the chunks it ranks in the order it meets them. *)
Lemma score_chunks_in_order (chunks : list str) :
  score_chunks chunks = Ok (omap ranked chunks).
Proof.
  induction chunks as [|chunk chunks IH]; [done|].
  cbn [score_chunks omap list_omap]. unfold ranked at 1.
  destruct (_clean_text chunk) as [|c cleaned]; [done|]. cbn [is_empty].
  destruct (score_chunk_returns (c :: cleaned)) as [score ->].
  rewrite IH. cbn [bind]. by destruct (0 <? score)%Z.
Qed.

(** C7. In the chunk-scoring path, the chunk returned is the earliest of
    those with the highest score: a ranked chunk of the description such
    that every ranked chunk before it has a strictly lower score and none
    after it has a higher one is the one [_extract_intelligent] returns,
    and [extract] with it when no prefix applies. *)
Theorem earliest_highest_chunk_wins
    (description : str) (pre post : list str) (chunk : str) (score : Z) (cleaned : str) :
  re_split false CHUNK_SEP description = pre ++ chunk :: post ->
  ranked chunk = Some (score, cleaned) ->
  Forall (fun ch => forall y, ranked ch = Some y -> (fst y < score)%Z) pre ->
  Forall (fun ch => forall y, ranked ch = Some y -> (fst y <= score)%Z) post ->
  _extract_intelligent description = Ok cleaned
  /\ (is_empty description || is_empty (strip description) = false ->
      _extract_after_prefix description = None ->
      extract description = Ok cleaned).
Proof.
  intros Hsplit Hchunk Hpre Hpost.
  assert (H : _extract_intelligent description = Ok cleaned).
  { unfold _extract_intelligent.
    rewrite Hsplit, score_chunks_in_order, omap_app. cbn [bind omap list_omap].
    rewrite Hchunk.
    destruct (sort_desc_head (omap ranked pre) (omap ranked post) (score, cleaned))
      as [others ->].
    - apply Forall_forall. intros y Hy. apply list_elem_of_omap in Hy as (ch & Hch & Hy).
      rewrite Forall_forall in Hpre. by apply (Hpre ch).
    - apply Forall_forall. intros y Hy. apply list_elem_of_omap in Hy as (ch & Hch & Hy).
      rewrite Forall_forall in Hpost. by apply (Hpost ch).
    - by destruct (omap ranked pre). }
  split; [done|].
  intros Hblank Hnone. unfold extract. by rewrite Hblank, Hnone.
Qed.

(** Two chunks of score 12: the first one is returned. *)
Lemma earliest_highest_chunk_wins_tie :
  ranked (py "ACME STORE") = Some (12%Z, py "ACME STORE")
  /\ ranked (py "BETA STORE") = Some (12%Z, py "BETA STORE")
  /\ _extract_intelligent (py "ACME STORE|BETA STORE") = Ok (py "ACME STORE")
  /\ extract (py "ACME STORE|BETA STORE") = Ok (py "ACME STORE").
Proof.
  destruct (earliest_highest_chunk_wins (py "ACME STORE|BETA STORE")
              [] [py "BETA STORE"] (py "ACME STORE") 12%Z (py "ACME STORE"))
    as [H1 H2].
  - vm_compute. reflexivity.
  - vm_compute. reflexivity.
  - constructor.
  - constructor; [|constructor]. intros y Hy. vm_compute in Hy.
    injection Hy as <-. simpl. lia.
  - split; [vm_compute; reflexivity|]. split; [vm_compute; reflexivity|].
    split; [exact H1|]. apply H2; vm_compute; reflexivity.
Defined.

(** ** Junk lines *)

Lemma accepts_ci_one (c x : char) :
  lower_char c = lower_char x -> accepts true [One c] x = true.
Proof.
  unfold accepts, lower_char, upper_char, is_upper, is_lower, in_range. simpl.
  intros H. rewrite orb_false_r.
  repeat match goal with
         | H : context [if ?b then _ else _] |- _ => destruct b eqn:?
         | |- context [if ?b then _ else _] => destruct b eqn:?
         end;
  rewrite ?andb_true_iff, ?andb_false_iff, ?N.leb_le, ?N.leb_gt in *;
  repeat rewrite orb_true_iff; rewrite ?N.eqb_eq; lia.
Qed.

Lemma starts_with_lower_cons (c : char) (t : str) (s : str) :
  starts_with (lower (c :: t)) (lower s) = true ->
  exists x s', s = x :: s' /\ lower_char c = lower_char x
               /\ starts_with (lower t) (lower s') = true.
Proof.
  destruct s as [|x s']; simpl; [discriminate|].
  intros H. apply andb_true_iff in H as [Hc Ht]. apply N.eqb_eq in Hc.
  by exists x, s'.
Qed.

(** A literal text matches, case-insensitively, wherever the lowered subject
    starts with the lowered text. *)
Lemma run_lit_ci (t : str) (k : cursor -> option cursor) :
  (forall p, k p <> None) ->
  forall (s : str) (b : option char),
    starts_with (lower t) (lower s) = true ->
    run true (lit t) k (Cursor b s) <> None.
Proof.
  intros Hk. induction t as [|c t IH]; intros s b Hs.
  - apply Hk.
  - apply starts_with_lower_cons in Hs as (x & s' & -> & Hc & Ht).
    cbn [lit fold_right]. fold (lit t). unfold Chr. cbn [run ahead].
    rewrite (accepts_ci_one c x Hc). by apply IH.
Qed.

Lemma search_label (t : str) (s : str) :
  forall b, contains (lower t) (lower s) = true ->
            search_from true (Cat (lit t) any_text) b s = true.
Proof.
  assert (Hhere : forall s b, starts_with (lower t) (lower s) = true ->
                    match_at true (Cat (lit t) any_text) (Cursor b s) <> None).
  { intros s0 b Hs. unfold match_at.
    destruct (run true (Cat (lit t) any_text) Some (Cursor b s0)) eqn:Hrun; [done|].
    exfalso. revert Hrun. cbn [run]. apply run_lit_ci; [|done].
    intros p. by apply run_star_total. }
  unfold contains. induction s as [|c s IH]; intros b; cbn [find lower map].
  - destruct (starts_with (lower t) []) eqn:Hs; [|done]. intros _.
    specialize (Hhere [] b Hs). cbn [search_from].
    by destruct (match_at true (Cat (lit t) any_text) (Cursor b [])).
  - fold (lower s).
    destruct (starts_with (lower t) (lower_char c :: lower s)) eqn:Hs.
    + intros _. specialize (Hhere (c :: s) b Hs). cbn [search_from].
      by destruct (match_at true (Cat (lit t) any_text) (Cursor b (c :: s))).
    + intros Hfind. cbn [search_from].
      destruct (match_at true (Cat (lit t) any_text) (Cursor b (c :: s))); [done|].
      apply IH. by destruct (find (lower t) (lower s)).
Qed.

Lemma parse_lines_skip (line : str) :
  (forall st, parse_line st line = st) ->
  forall pre post, parse_lines (pre ++ line :: post) = parse_lines (pre ++ post).
Proof.
  intros H pre post. unfold parse_lines.
  by rewrite !fold_left_app; cbn [fold_left]; rewrite H.
Qed.

(** C10. The patterns "PayPal Balance.*", "ID:.*", "Individual ID:.*" and
    "Ref ID:.*" are searched for anywhere in the line and in any case.  So
    every line that contains "id:" anywhere, in any case, is junk: the
    parser drops it before it looks for a date, and the line neither starts
    nor extends a transaction. *)
Theorem junk_label_anywhere (label : string) (line : str) :
  In label ["PayPal Balance"; "ID:"; "Individual ID:"; "Ref ID:"]%string ->
  contains (lower (py label)) (lower line) = true ->
  _is_junk_line line = true
  /\ (forall st, parse_line st line = st)
  /\ (forall pre post, parse_lines (pre ++ line :: post) = parse_lines (pre ++ post)).
Proof.
  intros Hin Hc.
  assert (Hjunk : _is_junk_line line = true).
  { unfold _is_junk_line. apply existsb_exists.
    exists (Cat (Txt label) any_text). split; [|by apply search_label].
    simpl in Hin. unfold JUNK_PATTERNS.
    destruct Hin as [<-|[<-|[<-|[<-|[]]]]]; simpl; tauto. }
  assert (Hskip : forall st, parse_line st line = st).
  { intros st. unfold parse_line. by rewrite Hjunk. }
  split; [done|]. split; [done|]. by apply parse_lines_skip.
Qed.

(** A line that starts with a date and goes on with "Paid: rent" contains
    "id:", and is such a line. *)
Lemma junk_label_anywhere_paid_rent :
  contains (py "id:") (lower (py "12/01/2025 Paid: rent")) = true
  /\ re_match false DATE_PATTERN (py "12/01/2025 Paid: rent") = Some (py "12/01/2025")
  /\ _is_junk_line (py "12/01/2025 Paid: rent") = true
  /\ (forall st, parse_line st (py "12/01/2025 Paid: rent") = st)
  /\ parse_lines [py "12/01/2025 Paid: rent"] = [].
Proof.
  destruct (junk_label_anywhere "ID:" (py "12/01/2025 Paid: rent")) as (H1 & H2 & H3).
  - simpl. tauto.
  - reflexivity.
  - split; [reflexivity|]. split; [reflexivity|]. split; [exact H1|].
    split; [exact H2|]. exact (H3 [] []).
Defined.

(** ** The heap states and their content *)

Lemma view_alter (f : Transaction -> Transaction) (addr : nat)
    (h : list Transaction) (refs : list nat) :
  addr ∉ refs -> view (alter f addr h) refs = view h refs.
Proof.
  unfold view. induction refs as [|r refs IH]; intros Hnot; [done|].
  apply not_elem_of_cons in Hnot as [Hne Hnot].
  cbn [omap list_omap]. rewrite list_lookup_alter_ne by done. by rewrite IH.
Qed.

Lemma view_grow (h h' : list Transaction) (refs : list nat) :
  Forall (fun addr => (addr < length h)%nat) refs -> view (h ++ h') refs = view h refs.
Proof.
  unfold view. induction 1 as [|r refs Hr Hrefs IH]; [done|].
  cbn [omap list_omap]. rewrite lookup_app_l by done. by rewrite IH.
Qed.

Lemma view_snoc (h : list Transaction) (refs : list nat) (addr : nat) :
  view h (refs ++ [addr]) = view h refs ++ option_list (h !! addr).
Proof.
  unfold view. rewrite omap_app. cbn [omap list_omap].
  by destruct (h !! addr).
Qed.

Lemma assign_amount_alter (amounts : list str) (addr : nat) (h : list Transaction) :
  assign_amount amounts addr h = alter (assign_value amounts) addr h.
Proof.
  unfold assign_amount, assign_value. destruct (last amounts) as [a|].
  - by rewrite list_alter_alter_eq.
  - by rewrite list_alter_id.
Qed.

Lemma save_current_content (st : parser) :
  well_formed st ->
  let st' := save_current st in
  view (heap st') (transactions st') = saved (content_of st) ++ closed (content_of st)
  /\ Forall (fun addr => (addr < length (heap st'))%nat) (transactions st').
Proof.
  intros [Hrefs Hcur]. unfold save_current, closed, content_of.
  cbn [saved opened parts].
  destruct (current_transaction st) as [addr|];
    cbn [heap transactions current_transaction desc_parts].
  - destruct Hcur as [Hlt Hnot]. split.
    + rewrite view_snoc, view_alter by done.
      rewrite list_lookup_alter_eq.
      destruct (lookup_lt_is_Some_2 _ _ Hlt) as [t ->]. done.
    + rewrite length_alter. apply Forall_app. split; [done|]. by constructor.
  - by rewrite app_nil_r.
Qed.

Lemma parse_line_content (st : parser) (line : str) :
  well_formed st ->
  content_of (parse_line st line) = line_effect (content_of st) line
  /\ well_formed (parse_line st line).
Proof.
  intros Hwf. unfold parse_line, line_effect.
  destruct (_is_junk_line line); [done|].
  destruct (re_match false DATE_PATTERN line) as [d|].
  - destruct (save_current_content st Hwf) as [Hview Hrefs].
    set (st' := save_current st) in *.
    assert (Hfresh : length (heap st') ∉ transactions st').
    { intros Hin. rewrite Forall_forall in Hrefs. apply Hrefs in Hin. lia. }
    rewrite assign_amount_alter. split.
    + unfold content_of. cbn [heap transactions current_transaction desc_parts].
      rewrite view_alter, view_grow, Hview by done.
      rewrite list_lookup_alter_eq, list_lookup_middle by done. done.
    + split; cbn [heap transactions current_transaction desc_parts].
      * rewrite length_alter, length_app. cbn [length].
        eapply Forall_impl; [exact Hrefs|]. simpl. intros; lia.
      * rewrite length_alter, length_app. cbn [length]. split; [lia|done].
  - destruct Hwf as [Hrefs Hcur]. unfold content_of at 2. cbn [opened saved parts].
    destruct (current_transaction st) as [addr|] eqn:Hc;
      [|split; [done|]; split; [done|]; by rewrite Hc].
    destruct Hcur as [Hlt Hnot].
    destruct (lookup_lt_is_Some_2 _ _ Hlt) as [t Ht]. rewrite Ht.
    rewrite assign_amount_alter.
    set (amounts := re_findall false AMOUNT_PATTERN line).
    split.
    + unfold content_of. cbn [heap transactions current_transaction desc_parts].
      destruct (negb (is_empty amounts) && is_empty (amount t)).
      * by rewrite view_alter, list_lookup_alter_eq, Ht by done.
      * by rewrite Ht.
    + split; cbn [heap transactions current_transaction desc_parts].
      * destruct (negb (is_empty amounts) && is_empty (amount t));
          rewrite ?length_alter; done.
      * destruct (negb (is_empty amounts) && is_empty (amount t));
          rewrite ?length_alter; done.
Qed.

Lemma well_formed_start : well_formed parse_start.
Proof. split; [constructor|done]. Qed.

Lemma fold_parse_line_content (lines : list str) (st : parser) :
  well_formed st ->
  content_of (fold_left parse_line lines st) = fold_left line_effect lines (content_of st)
  /\ well_formed (fold_left parse_line lines st).
Proof.
  revert st. induction lines as [|line lines IH]; intros st Hwf; [done|].
  cbn [fold_left]. destruct (parse_line_content st line Hwf) as [Hc Hwf'].
  rewrite <- Hc. by apply IH.
Qed.

(** The transactions [parse_lines] returns are the saved ones and the one
    the end of the input closes, as values. *)
Lemma parse_lines_content (lines : list str) :
  parse_lines lines =
  (let c := fold_left line_effect lines no_content in saved c ++ closed c).
Proof.
  unfold parse_lines.
  destruct (fold_parse_line_content lines parse_start well_formed_start) as [Hc Hwf].
  destruct (save_current_content _ Hwf) as [-> _]. by rewrite Hc.
Qed.

(** [parse] walks the lines of all pages as one run. *)
Lemma parse_as_lines (pages : list (list str)) :
  parse pages = parse_lines (all_lines pages).
Proof.
  unfold parse, parse_pages, parse_lines, all_lines.
  generalize parse_start.
  induction pages as [|page pages IH]; intros st; [done|].
  cbn [fold_left flat_map]. rewrite fold_left_app. apply IH.
Qed.

(** ** Amount tokens *)

(** A match of [AMOUNT_PATTERN] starts with a sign or a digit. *)
Lemma amount_match_first (b : option char) (c : char) (s : str) (n : nat) :
  match_at false AMOUNT_PATTERN (Cursor b (c :: s)) = Some n ->
  c = 45 \/ c = 43 \/ is_digit c = true.
Proof.
  unfold match_at. intros H.
  destruct (accepts false [One 45; One 43] c) eqn:Hsign.
  - unfold accepts in Hsign. cbn [existsb cls_has] in Hsign.
    rewrite !andb_false_l, !orb_false_r in Hsign.
    apply orb_true_iff in Hsign as [Hs|Hs]; apply N.eqb_eq in Hs; tauto.
  - destruct (is_digit c) eqn:Hd; [tauto|]. exfalso. revert H.
    unfold AMOUNT_PATTERN, Seq, Between, Opt, digit.
    cbn [fold_right Rep UpTo Nat.sub run ahead]. rewrite Hsign.
    unfold accepts at 1. cbn [existsb cls_has]. rewrite Hd. done.
Qed.

Lemma findall_amount_tokens (s : str) :
  forall (b : option char) (skip : nat) (tok : str),
    In tok (findall_scan false AMOUNT_PATTERN b s skip) ->
    exists c rest, tok = c :: rest /\ c <> 44.
Proof.
  induction s as [|c s IH]; intros b skip tok; cbn [findall_scan]; [done|].
  destruct skip as [|skip]; [|apply IH].
  destruct (match_at false AMOUNT_PATTERN (Cursor b (c :: s))) as [[|n]|] eqn:Hm;
    [apply IH| |apply IH].
  intros [<-|Hin]; [|by eapply IH].
  exists c, (take n s). split; [done|].
  apply amount_match_first in Hm. intros ->. vm_compute in Hm.
  destruct Hm as [?|[?|?]]; discriminate.
Qed.

(** The amount the parser assigns is never the empty string. *)
Lemma assigned_amount_not_empty (s : str) (a : str) :
  last (re_findall false AMOUNT_PATTERN s) = Some a -> remove_commas a <> [].
Proof.
  intros Hlast.
  assert (Hin : In a (re_findall false AMOUNT_PATTERN s)).
  { apply list_elem_of_In. apply last_Some in Hlast as [l' ->].
    apply elem_of_app. right. by left. }
  apply findall_amount_tokens in Hin as (c & rest & -> & Hc).
  unfold remove_commas, str, char. rewrite filter_cons. by case_decide.
Qed.

(** ** Lines and transactions *)

Lemma anchor_effect (c : content) (line d : str) :
  anchor line = Some d ->
  line_effect c line =
  Content (saved c ++ closed c) (Some (opened_by d line)) (first_parts d line).
Proof.
  unfold anchor, line_effect. destruct (_is_junk_line line); [done|].
  by intros ->.
Qed.

Lemma continuation_effect (c : content) (line : str) :
  anchor line = None ->
  saved (line_effect c line) = saved c
  /\ match opened c with
     | None => line_effect c line = c
     | Some t => exists t', opened (line_effect c line) = Some t' /\ date t' = date t
     end.
Proof.
  unfold anchor, line_effect. destruct (_is_junk_line line).
  { intros _. split; [done|]. destruct (opened c) as [t|]; [by exists t|done]. }
  intros ->. destruct (opened c) as [t|]; [|done]. split; [done|].
  eexists. split; [done|]. cbn [opened].
  destruct (negb _ && _); [|done].
  unfold assign_value. by destruct (last _).
Qed.

(** The saved transactions only grow, and what a line adds to them depends
    on the open transaction and its parts alone. *)
Lemma line_effect_saved (c : content) (line : str) :
  line_effect c line =
  (let c' := line_effect (Content [] (opened c) (parts c)) line in
   Content (saved c ++ saved c') (opened c') (parts c')).
Proof.
  destruct c as [sv o ps]. unfold line_effect, closed. cbn [saved opened parts].
  destruct (_is_junk_line line); [by rewrite app_nil_r|].
  destruct (re_match false DATE_PATTERN line); [done|].
  destruct o; cbn [saved opened parts]; by rewrite app_nil_r.
Qed.

Lemma fold_line_effect_saved (lines : list str) (c : content) :
  fold_left line_effect lines c =
  (let c' := fold_left line_effect lines (Content [] (opened c) (parts c)) in
   Content (saved c ++ saved c') (opened c') (parts c')).
Proof.
  revert c. induction lines as [|line lines IH]; intros c.
  - destruct c. cbn. by rewrite app_nil_r.
  - cbn [fold_left]. rewrite (line_effect_saved c line). cbv zeta.
    set (c1 := line_effect (Content [] (opened c) (parts c)) line).
    rewrite IH. cbn [saved opened parts]. rewrite (IH c1). cbv zeta.
    cbn [saved opened parts]. by rewrite app_assoc.
Qed.

(** A transaction boundary: the lines before an anchor and the lines from
    it on give their transactions independently. *)
Lemma parse_lines_anchor_split (pre post : list str) (line d : str) :
  anchor line = Some d ->
  parse_lines (pre ++ line :: post) = parse_lines pre ++ parse_lines (line :: post).
Proof.
  intros Ha. rewrite !parse_lines_content. cbv zeta.
  rewrite fold_left_app. cbn [fold_left].
  rewrite !(anchor_effect _ line d Ha).
  set (cp := fold_left line_effect pre no_content).
  rewrite (fold_line_effect_saved post (Content (saved cp ++ closed cp) _ _)).
  cbv zeta. cbn [saved opened parts closed no_content app].
  unfold closed at 2. cbn [opened parts].
  by rewrite <- !app_assoc.
Qed.


Lemma opened_by_date (d line : str) : date (opened_by d line) = d.
Proof. unfold opened_by, assign_value. by destruct (last _). Qed.


Lemma until_from_anchor (lines : list str) :
  lines = until_anchor lines ++ from_anchor lines
  /\ Forall (fun l => anchor l = None) (until_anchor lines)
  /\ (from_anchor lines = []
      \/ exists l d rest, from_anchor lines = l :: rest /\ anchor l = Some d).
Proof.
  induction lines as [|l lines (IH1 & IH2 & IH3)]; cbn [until_anchor from_anchor].
  - split; [done|]. split; [constructor|]. by left.
  - destruct (anchor l) as [d|] eqn:Ha.
    + split; [done|]. split; [constructor|]. right. by exists l, d, lines.
    + split; [cbn; by f_equal|]. split; [by constructor|done].
Qed.


(** ** Saved transactions are left alone *)









(** ** Amount, total and fees *)

Lemma assign_value_balanced (amounts : list str) (t : Transaction) :
  balanced t -> balanced (assign_value amounts t).
Proof.
  intros [Ht Hf]. unfold assign_value. destruct (last amounts); by split.
Qed.

Lemma closed_balanced (c : content) :
  (forall t, opened c = Some t -> balanced t) -> Forall balanced (closed c).
Proof.
  intros Ho. unfold closed. destruct (opened c) as [t|]; [|constructor].
  constructor; [|constructor]. by destruct (Ho t eq_refl).
Qed.

Lemma line_effect_balanced (c : content) (line : str) :
  Forall balanced (saved c) -> (forall t, opened c = Some t -> balanced t) ->
  Forall balanced (saved (line_effect c line))
  /\ (forall t, opened (line_effect c line) = Some t -> balanced t).
Proof.
  intros Hs Ho. unfold line_effect.
  destruct (_is_junk_line line); [done|].
  destruct (re_match false DATE_PATTERN line) as [d|]; cbn [saved opened].
  - split.
    + apply Forall_app. split; [done|]. by apply closed_balanced.
    + intros t [= <-]. by apply assign_value_balanced.
  - destruct (opened c) as [t|] eqn:Hc; cbn [saved opened];
      [|split; [done|]; intros t' Ht'; apply Ho; congruence].
    split; [done|]. intros t' [= <-].
    destruct (negb _ && _); [apply assign_value_balanced|]; by apply Ho.
Qed.

Lemma content_after_balanced (lines : list str) :
  Forall balanced (saved (content_after lines))
  /\ (forall t, opened (content_after lines) = Some t -> balanced t).
Proof.
  unfold content_after.
  assert (H : forall c, Forall balanced (saved c) ->
                (forall t, opened c = Some t -> balanced t) ->
                Forall balanced (saved (fold_left line_effect lines c))
                /\ (forall t, opened (fold_left line_effect lines c) = Some t -> balanced t)).
  { induction lines as [|line lines IH]; intros c Hs Ho; [done|].
    cbn [fold_left]. destruct (line_effect_balanced c line Hs Ho). by apply IH. }
  apply H; [constructor|done].
Qed.

Lemma assign_amount_lookup (amounts : list str) (a : str) (addr : nat)
    (h : list Transaction) :
  assign_amount (amounts ++ [a]) addr h !! addr =
  (fun t => mkTransaction (date t) (description t) (currency t)
                          (remove_commas a) (fees t) (remove_commas a))
    <$> h !! addr.
Proof.
  unfold assign_amount. rewrite last_snoc.
  rewrite !list_lookup_alter_eq. by destruct (h !! addr).
Qed.

(** C9. In every transaction [parse] returns, [total] equals [amount] and
    [fees] is "0.00": a new transaction has "0.00" in all three, and the one
    assignment to [amount] there is gives [total] the same value and leaves
    [fees] alone. *)
Theorem total_follows_amount (pages : list (list str)) :
  Forall (fun t => total t = amount t /\ fees t = py "0.00") (parse pages)
  /\ (forall d, amount (new_transaction d) = py "0.00"
                /\ total (new_transaction d) = py "0.00"
                /\ fees (new_transaction d) = py "0.00")
  /\ (forall amounts a addr h,
        assign_amount (amounts ++ [a]) addr h !! addr =
        (fun t => mkTransaction (date t) (description t) (currency t)
                                (remove_commas a) (fees t) (remove_commas a))
          <$> h !! addr).
Proof.
  split; [|split; [done|apply assign_amount_lookup]].
  rewrite parse_as_lines, parse_lines_content. cbv zeta.
  destruct (content_after_balanced (all_lines pages)) as [Hs Ho].
  fold (content_after (all_lines pages)).
  apply Forall_app. split; [done|]. by apply closed_balanced.
Qed.

(** ** The amount of a continuation line *)

Lemma parse_line_amount_is_set (st : parser) (line : str) :
  Forall amount_is_set (heap st) -> Forall amount_is_set (heap (parse_line st line)).
Proof.
  intros Hset.
  assert (Hassign : forall s addr h,
            Forall amount_is_set h ->
            Forall amount_is_set (assign_amount (re_findall false AMOUNT_PATTERN s) addr h)).
  { intros s addr h Hh. rewrite assign_amount_alter.
    apply Forall_alter; [done|]. intros t _ Ht. unfold assign_value.
    destruct (last _) as [a|] eqn:Hlast; [|done].
    by apply assigned_amount_not_empty in Hlast. }
  unfold parse_line. destruct (_is_junk_line line); [done|].
  destruct (re_match false DATE_PATTERN line) as [d|]; cbn [heap].
  - apply Hassign. apply Forall_app. split.
    + unfold save_current. destruct (current_transaction st); [|done].
      cbn [heap]. by apply Forall_alter.
    + by repeat constructor.
  - destruct (current_transaction st); [|done]. cbn [heap].
    destruct (negb _ && _); [by apply Hassign|done].
Qed.

Lemma read_lines_amount_is_set (lines : list str) :
  Forall amount_is_set (heap (read_lines lines)).
Proof.
  unfold read_lines.
  assert (H : forall st, Forall amount_is_set (heap st) ->
                         Forall amount_is_set (heap (fold_left parse_line lines st))).
  { induction lines as [|line lines IH]; intros st Hst; [done|].
    cbn [fold_left]. by apply IH, parse_line_amount_is_set. }
  apply H. constructor.
Qed.

(** The test [not current_transaction.amount] never holds, so a line that
    does not start with a date changes no transaction. *)
Lemma continuation_keeps_heap (st : parser) (line : str) :
  Forall amount_is_set (heap st) ->
  re_match false DATE_PATTERN line = None ->
  heap (parse_line st line) = heap st.
Proof.
  intros Hset Hno. unfold parse_line. rewrite Hno.
  destruct (_is_junk_line line); [done|].
  destruct (current_transaction st) as [addr|]; [|done]. cbn [heap].
  destruct (heap st !! addr) as [t|] eqn:Ht; [|by rewrite andb_false_r].
  assert (Hamount : amount t <> []).
  { rewrite Forall_lookup in Hset. by apply (Hset addr). }
  destruct (amount t); [done|]. by rewrite andb_false_r.
Qed.

(** C1. A continuation line never sets the amount: whatever was read before
    it, a line that does not start with a date leaves every transaction as
    it was, so the amount stays at its default; read after "12/03/2025" and
    "Direct Deposit: ACME PAYROLL SERVICES LLC", the line "1500.00" (whose
    only amount token is "500.00") leaves the amount at "0.00". *)
Theorem continuation_line_never_sets_amount :
  (forall seen line,
     re_match false DATE_PATTERN line = None ->
     heap (read_lines (seen ++ [line])) = heap (read_lines seen))
  /\ re_findall false AMOUNT_PATTERN (py "1500.00") = [py "500.00"]
  /\ parse [[py "12/03/2025"; py "Direct Deposit: ACME PAYROLL SERVICES LLC";
             py "1500.00"]]
     = [mkTransaction (py "12/03/2025")
                      (py "Direct Deposit: ACME PAYROLL SERVICES LLC")
                      (py "USD") (py "0.00") (py "0.00") (py "0.00")].
Proof.
  split; [|split; vm_compute; reflexivity].
  intros seen line Hno. unfold read_lines. rewrite fold_left_app. cbn [fold_left].
  apply continuation_keeps_heap; [|done]. apply read_lines_amount_is_set.
Qed.

(** C5. The remainder of a date line gives the transaction its rightmost
    amount token; a continuation line gives it none.  "Fee 2.50 Total 19.99"
    after a date makes the amount "19.99"; as a line of its own under a date
    line it leaves the amount at "0.00". *)
Theorem rightmost_amount_on_date_line_only :
  (forall seen line d,
     anchor line = Some d ->
     opened (content_of (read_lines (seen ++ [line]))) = Some (opened_by d line)
     /\ amount (opened_by d line)
        = match last (re_findall false AMOUNT_PATTERN (line_rest d line)) with
          | Some a => remove_commas a
          | None => py "0.00"
          end
     /\ total (opened_by d line) = amount (opened_by d line))
  /\ re_findall false AMOUNT_PATTERN (py "Fee 2.50 Total 19.99") = [py "2.50"; py "19.99"]
  /\ parse [[py "12/01/2025 Fee 2.50 Total 19.99"]]
     = [mkTransaction (py "12/01/2025") (py "Fee 2.50 Total 19.99")
                      (py "USD") (py "19.99") (py "0.00") (py "19.99")]
  /\ parse [[py "12/01/2025 Coffee"; py "Fee 2.50 Total 19.99"]]
     = [mkTransaction (py "12/01/2025") (py "Coffee Fee Total")
                      (py "USD") (py "0.00") (py "0.00") (py "0.00")].
Proof.
  split; [|split; [|split]; vm_compute; reflexivity].
  intros seen line d Ha. split; [|split].
  - unfold read_lines.
    destruct (fold_parse_line_content (seen ++ [line]) parse_start well_formed_start)
      as [-> _].
    rewrite fold_left_app. cbn [fold_left].
    by rewrite (anchor_effect _ line d Ha).
  - unfold opened_by, assign_value. by destruct (last _).
  - unfold opened_by, assign_value. by destruct (last _).
Qed.

(** ** Prefixes *)

Lemma lstrip_with_head (f : char -> bool) (s : str) (c : char) (s' : str) :
  lstrip_with f s = c :: s' -> f c = false.
Proof.
  induction s as [|x s IH]; cbn [lstrip_with]; [done|].
  destruct (f x) eqn:Hx; [done|]. by intros [= <- _].
Qed.


Lemma forallb_rev (f : char -> bool) (s : str) :
  forallb f (rev s) = forallb f s.
Proof.
  induction s as [|x s IH]; [done|]. cbn [rev forallb].
  rewrite forallb_app, IH. cbn [forallb]. rewrite andb_true_r. apply andb_comm.
Qed.




Lemma after_prefix_cons (prefix : str) (prefixes : list str) (text : str) :
  after_prefix (prefix :: prefixes) text =
  if is_empty (cleaned_after prefix text) then after_prefix prefixes text
  else Some (cleaned_after prefix text).
Proof.
  cbn [after_prefix]. unfold cleaned_after. by destruct (find _ _).
Qed.






(** ** Cleaning twice *)

Lemma is_space_not_letter (c : char) : is_space c = true -> c <= 32 \/ 133 <= c.
Proof.
  unfold is_space, in_range.
  rewrite !orb_true_iff, !andb_true_iff, !N.leb_le, !N.eqb_eq. lia.
Qed.

Lemma is_space_lower (c : char) : is_space (lower_char c) = is_space c.
Proof.
  unfold lower_char. destruct (is_upper c) eqn:Hu; [|done].
  unfold is_upper, in_range in Hu.
  apply andb_true_iff in Hu as [H1 H2]. apply N.leb_le in H1, H2.
  destruct (is_space c) eqn:Hc; [apply is_space_not_letter in Hc; lia|].
  destruct (is_space (c + 32)) eqn:Hc'; [apply is_space_not_letter in Hc'; lia|done].
Qed.

Lemma split_ws_from_words (s : str) :
  forall word, Forall (fun c => is_space c = false) word ->
               Forall is_a_word (split_ws_from s word).
Proof.
  induction s as [|c s IH]; intros word Hword; cbn [split_ws_from].
  - destruct word; [constructor|]. constructor; [by split|constructor].
  - destruct (is_space c) eqn:Hc.
    + destruct word; [by apply IH|]. constructor; [by split|by apply IH].
    + apply IH. apply Forall_app. split; [done|by repeat constructor].
Qed.

Lemma split_ws_words (s : str) : Forall is_a_word (split_ws s).
Proof. by apply split_ws_from_words. Qed.

Lemma split_ws_from_word (w : str) :
  Forall (fun c => is_space c = false) w ->
  forall rest word, split_ws_from (w ++ rest) word = split_ws_from rest (word ++ w).
Proof.
  induction 1 as [|c w Hc Hw IH]; intros rest word; [by rewrite app_nil_r|].
  cbn [app split_ws_from]. rewrite Hc, IH. by rewrite <- app_assoc.
Qed.

Lemma join_more (sep p q : str) (ps : list str) :
  join sep (p :: q :: ps) = p ++ sep ++ join sep (q :: ps).
Proof. done. Qed.

Lemma split_ws_join (ws : list str) :
  Forall is_a_word ws -> split_ws (join (py " ") ws) = ws.
Proof.
  unfold split_ws. induction 1 as [|w ws [Hne Hw] Hws IH]; [done|].
  destruct ws as [|w' ws'].
  - cbn [join]. rewrite <- (app_nil_r w) at 1.
    rewrite (split_ws_from_word w Hw). cbn [app split_ws_from]. by destruct w.
  - rewrite join_more, (split_ws_from_word w Hw).
    change (py " " ++ join (py " ") (w' :: ws')) with (32 :: join (py " ") (w' :: ws')).
    cbn [app split_ws_from]. change (is_space 32) with true. cbv iota.
    rewrite IH. by destruct w.
Qed.

Lemma lower_join (ws : list str) :
  lower (join (py " ") ws) = join (py " ") (map lower ws).
Proof.
  induction ws as [|w ws IH]; [done|]. destruct ws as [|w' ws']; [done|].
  cbn [map] in *. rewrite !join_more. unfold lower in *. by rewrite !map_app, IH.
Qed.

Lemma lower_is_a_word (w : str) : is_a_word w -> is_a_word (lower w).
Proof.
  intros [Hne Hw]. split; [by destruct w|].
  unfold lower. apply Forall_fmap. eapply Forall_impl; [exact Hw|].
  intros c Hc. cbn. by rewrite is_space_lower.
Qed.

Lemma lstrip_with_keeps (f : char -> bool) (c : char) (s : str) :
  f c = false -> lstrip_with f (c :: s) = c :: s.
Proof. intros H. cbn. by rewrite H. Qed.

Lemma rstrip_with_keeps (f : char -> bool) (s : str) (c : char) :
  f c = false -> rstrip_with f (s ++ [c]) = s ++ [c].
Proof.
  intros H. unfold rstrip_with. rewrite rev_app_distr. cbn [rev app].
  rewrite lstrip_with_keeps by done. cbn [rev]. by rewrite rev_involutive.
Qed.

(** Words joined by single spaces begin and end with a character that is
    not whitespace. *)
Lemma join_words_ends (ws : list str) :
  Forall is_a_word ws -> ws <> [] ->
  (exists c s, join (py " ") ws = c :: s /\ is_space c = false)
  /\ (exists s c, join (py " ") ws = s ++ [c] /\ is_space c = false).
Proof.
  induction 1 as [|w ws [Hne Hw] Hws IH]; [done|]. intros _.
  assert (Hlast : exists s c, w = s ++ [c] /\ is_space c = false).
  { destruct (exists_last Hne) as (s & c & ->). exists s, c. split; [done|].
    apply Forall_app in Hw as [_ Hc]. by inversion Hc. }
  destruct ws as [|w' ws'].
  - cbn [join]. split; [|done]. destruct w as [|c s]; [done|].
    exists c, s. split; [done|]. by inversion Hw.
  - rewrite join_more. split.
    + destruct w as [|c s]; [done|]. exists c. eexists. split; [done|]. by inversion Hw.
    + destruct IH as [_ (s & c & Hj & Hc)]; [done|]. rewrite Hj.
      exists (w ++ py " " ++ s), c. split; [by rewrite <- !app_assoc|done].
Qed.

Lemma strip_join_words (ws : list str) :
  Forall is_a_word ws -> strip (join (py " ") ws) = join (py " ") ws.
Proof.
  intros Hws. destruct ws as [|w ws]; [done|].
  destruct (join_words_ends (w :: ws) Hws) as [(c & s & Hj & Hc) (s' & c' & Hj' & Hc')];
    [done|].
  unfold strip, strip_with. rewrite Hj, lstrip_with_keeps by done.
  rewrite <- Hj, Hj'. by apply rstrip_with_keeps.
Qed.

Lemma spaces_not_here (b : option char) (c : char) (s : str) :
  is_space c = false -> match_at false SPACES (Cursor b (c :: s)) = None.
Proof.
  intros Hc. unfold match_at, SPACES, Plus, space. cbn [run ahead].
  unfold accepts. cbn [existsb cls_has]. by rewrite Hc.
Qed.

Lemma one_space_here (b : option char) (c : char) (s : str) :
  is_space c = false -> match_at false SPACES (Cursor b (32 :: c :: s)) = Some 1%nat.
Proof.
  intros Hc. unfold match_at, SPACES, Plus, space. cbn [run ahead length].
  unfold accepts. cbn [existsb cls_has]. rewrite Hc.
  change (is_space 32) with true. cbn. f_equal. lia.
Qed.

Lemma sub_one_space (b : option char) (c : char) (s : str) :
  is_space c = false ->
  sub_scan false SPACES (py " ") b (32 :: c :: s) 0
  = 32 :: sub_scan false SPACES (py " ") (Some 32) (c :: s) 0.
Proof.
  intros Hc. change (sub_scan false SPACES (py " ") b (32 :: c :: s) 0) with
    (match match_at false SPACES (Cursor b (32 :: c :: s)) with
     | Some (S n) => py " " ++ sub_scan false SPACES (py " ") (Some 32) (c :: s) n
     | _ => 32 :: sub_scan false SPACES (py " ") (Some 32) (c :: s) 0
     end).
  by rewrite one_space_here.
Qed.

Lemma sub_spaces_word (w : str) :
  Forall (fun c => is_space c = false) w ->
  forall rest,
    (forall b, sub_scan false SPACES (py " ") b rest 0 = rest) ->
    forall b, sub_scan false SPACES (py " ") b (w ++ rest) 0 = w ++ rest.
Proof.
  induction 1 as [|c w Hc Hw IH]; intros rest Hrest b; [apply Hrest|].
  cbn [app sub_scan]. rewrite spaces_not_here by done. by rewrite IH.
Qed.

(** Words joined by single spaces are already normalized. *)
Lemma sub_spaces_join (ws : list str) :
  Forall is_a_word ws ->
  forall b, sub_scan false SPACES (py " ") b (join (py " ") ws) 0 = join (py " ") ws.
Proof.
  induction 1 as [|w ws [Hne Hw] Hws IH]; intros b; [done|].
  destruct ws as [|w' ws'].
  - cbn [join]. rewrite <- (app_nil_r w). by apply sub_spaces_word.
  - rewrite join_more. apply sub_spaces_word; [done|]. intros b'.
    destruct (join_words_ends (w' :: ws') Hws) as [(c & s & Hj & Hc) _]; [done|].
    change (py " " ++ ?x) with (32 :: x). rewrite Hj at 1.
    rewrite sub_one_space by done. rewrite <- Hj. by rewrite IH.
Qed.

(** What [_clean_text] returns: nothing, or words that are not noise
    keywords, joined by single spaces. *)
Lemma clean_text_shape (text : str) :
  _clean_text text = []
  \/ exists ws, ws <> [] /\ Forall is_a_word ws
       /\ Forall (fun w => mem (lower w) NOISE_KEYWORDS = false) ws
       /\ _clean_text text = join (py " ") ws.
Proof.
  unfold _clean_text.
  set (cleaned := strip_chars STRIP_CHARS _).
  destruct (forallb _ _); [by left|].
  set (ws := filter _ (split_ws cleaned)).
  assert (Hwords : Forall is_a_word ws).
  { apply Forall_forall. intros w Hw. apply list_elem_of_filter in Hw as [_ Hw].
    pose proof (split_ws_words cleaned) as H. rewrite Forall_forall in H. by apply H. }
  assert (Hnoise : Forall (fun w => mem (lower w) NOISE_KEYWORDS = false) ws).
  { apply Forall_forall. intros w Hw. by apply list_elem_of_filter in Hw as [Hw _]. }
  rewrite (strip_join_words ws Hwords).
  unfold re_sub. rewrite (sub_spaces_join ws Hwords).
  destruct ws as [|w ws'] eqn:Hws; [by left|]. right.
  exists (w :: ws'). by repeat split.
Qed.

(** C4, amended. Cleaning again changes nothing when the cleaned text has
    nothing left for the first three steps to remove: no amount token, no ID
    label with its value, and no character of ' |,.-•' at either end. *)
Theorem clean_text_idempotent_when_settled (text : str) :
  re_search false AMOUNT_IN_TEXT (_clean_text text) = false ->
  re_search true ID_LABEL (_clean_text text) = false ->
  strip_chars STRIP_CHARS (_clean_text text) = _clean_text text ->
  _clean_text (_clean_text text) = _clean_text text.
Proof.
  destruct (clean_text_shape text) as [->|(ws & Hne & Hwords & Hnoise & ->)];
    [done|].
  intros Hamount Hid Hstrip.
  unfold _clean_text, re_sub.
  rewrite (sub_scan_no_match false AMOUNT_IN_TEXT [] _ None Hamount).
  rewrite (sub_scan_no_match true ID_LABEL [] _ None Hid).
  rewrite Hstrip, lower_join.
  assert (Hlower : Forall is_a_word (map lower ws)).
  { apply Forall_fmap. eapply Forall_impl; [exact Hwords|]. apply lower_is_a_word. }
  rewrite (split_ws_join _ Hlower), (split_ws_join _ Hwords).
  assert (Hkeep : filter (fun w => mem (lower w) NOISE_KEYWORDS = false) ws = ws).
  { clear -Hnoise. induction Hnoise as [|w ws Hw Hws IH]; [done|].
    by rewrite filter_cons_True, IH. }
  rewrite Hkeep.
  assert (Hall : forallb (fun word => mem word NOISE_KEYWORDS)
                   (filter (fun word => is_empty word = false) (map lower ws)) = false).
  { destruct ws as [|w ws']; [done|]. cbn [map].
    inversion Hlower as [|? ? [Hw _] _]; subst.
    rewrite filter_cons_True by (by destruct (lower w)).
    cbn [forallb]. inversion Hnoise as [|? ? Hn _]; subst. by rewrite Hn. }
  rewrite Hall, (strip_join_words ws Hwords).
  by apply sub_spaces_join.
Qed.

Lemma clean_text_idempotent_when_settled_acme :
  _clean_text (_clean_text (py "Acme Corp  ID: 8AB123 -25.00"))
  = _clean_text (py "Acme Corp  ID: 8AB123 -25.00").
Proof.
  apply clean_text_idempotent_when_settled; vm_compute; reflexivity.
Defined.

(** Dropping the noise word "USD" leaves a dash in front, which the second
    cleaning strips. *)
Lemma clean_text_twice_differs :
  _clean_text (py "USD - Acme") = py "- Acme"
  /\ _clean_text (_clean_text (py "USD - Acme")) = py "Acme"
  /\ _clean_text (_clean_text (py "USD - Acme")) <> _clean_text (py "USD - Acme").
Proof.
  split; [vm_compute; reflexivity|]. split; [vm_compute; reflexivity|].
  vm_compute. discriminate.
Qed.

(** * Further properties *)

(** ** One transaction for every date line *)

Lemma closed_dates (c : content) :
  map date (closed c) = match opened c with Some t => [date t] | None => [] end.
Proof. unfold closed. by destruct (opened c). Qed.

Lemma fold_line_effect_dates (lines : list str) :
  forall c,
    let c' := fold_left line_effect lines c in
    map date (saved c' ++ closed c') = map date (saved c ++ closed c) ++ omap anchor lines.
Proof.
  induction lines as [|line lines IH]; intros c; cbn [fold_left omap list_omap].
  - by rewrite app_nil_r.
  - rewrite IH. destruct (anchor line) as [d|] eqn:Ha.
    + rewrite (anchor_effect c line d Ha). cbn [saved].
      rewrite !map_app, !closed_dates. cbn [opened].
      rewrite opened_by_date, <- !app_assoc. done.
    + destruct (continuation_effect c line Ha) as [Hs Ho].
      rewrite !map_app, !closed_dates, Hs. f_equal. f_equal.
      destruct (opened c) as [t|] eqn:Hc.
      * destruct Ho as (t' & -> & ->). done.
      * by rewrite Ho, Hc.
Qed.

(** X1. [parse] returns one transaction for every line that is not junk and
    starts with a date, in the order of the lines, and dated by the date the
    line starts with; other lines add no transaction. *)
Theorem one_transaction_per_date_line (pages : list (list str)) :
  map date (parse pages) = omap anchor (all_lines pages).
Proof.
  rewrite parse_as_lines, parse_lines_content.
  apply (fold_line_effect_dates (all_lines pages) no_content).
Qed.

(** ** Lines that do not count *)

Lemma parse_lines_no_anchor (lines : list str) :
  Forall (fun l => anchor l = None) lines -> parse_lines lines = [].
Proof.
  intros H. rewrite parse_lines_content.
  assert (Hfold : fold_left line_effect lines no_content = no_content).
  { induction H as [|l lines Hl Hlines IH]; [done|]. cbn [fold_left].
    destruct (continuation_effect no_content l Hl) as [_ Ho]. cbn in Ho.
    by rewrite Ho. }
  by rewrite Hfold.
Qed.

(** X2. What comes before the first date line is dropped: the transactions
    are those of the lines from the first anchor on, and there are none when
    no line is an anchor. *)
Theorem lines_before_first_date_are_dropped (lines : list str) :
  parse_lines lines = parse_lines (from_anchor lines).
Proof.
  destruct (until_from_anchor lines) as (Hsplit & Huntil & [Hnil|Hnext]).
  - rewrite Hnil in *. rewrite app_nil_r in Hsplit. rewrite Hsplit at 1.
    by rewrite (parse_lines_no_anchor _ Huntil).
  - destruct Hnext as (l & d & rest & Hfrom & Hl). rewrite Hsplit at 1.
    rewrite Hfrom, (parse_lines_anchor_split (until_anchor lines) rest l d Hl).
    by rewrite (parse_lines_no_anchor _ Huntil).
Qed.

Lemma fold_parse_line_filter (lines : list str) :
  forall st,
    fold_left parse_line (filter (fun l => _is_junk_line l = false) lines) st
    = fold_left parse_line lines st.
Proof.
  induction lines as [|l lines IH]; intros st; [done|].
  rewrite filter_cons. cbn [fold_left].
  destruct (_is_junk_line l) eqn:Hj.
  - rewrite decide_False by done.
    assert (Hp : parse_line st l = st) by (unfold parse_line; by rewrite Hj).
    rewrite Hp. apply IH.
  - rewrite decide_True by done. cbn [fold_left]. apply IH.
Qed.

(** X3. Junk lines can be taken out of the input without changing what
    [parse] returns. *)
Theorem junk_lines_do_not_count (lines : list str) :
  parse_lines (filter (fun l => _is_junk_line l = false) lines) = parse_lines lines.
Proof. unfold parse_lines. by rewrite fold_parse_line_filter. Qed.

Lemma page_lines_app (p1 p2 : list str) :
  page_lines (p1 ++ p2) = page_lines p1 ++ page_lines p2.
Proof. unfold page_lines. by rewrite map_app, filter_app. Qed.

Lemma all_lines_concat (pages : list (list str)) :
  all_lines pages = page_lines (concat pages).
Proof.
  unfold all_lines. induction pages as [|page pages IH]; [done|].
  cbn [flat_map concat]. by rewrite page_lines_app, IH.
Qed.

(** X4. Page breaks do not matter: the pages are read as one run of lines,
    so a transaction goes on across a page break. *)
Theorem page_breaks_do_not_matter (pages : list (list str)) :
  parse pages = parse [concat pages].
Proof.
  rewrite !parse_as_lines, !all_lines_concat. cbn [concat]. by rewrite app_nil_r.
Qed.

(** ** The description and the fields of a transaction *)

Lemma add_part_kept (ps : list str) (line : str) :
  _is_junk_line line = false ->
  add_part ps (non_amount_text line) = ps ++ option_list (kept_text line).
Proof.
  intros Hj. unfold add_part, kept_text. rewrite Hj.
  destruct (negb _ && _); [done|by rewrite app_nil_r].
Qed.

Lemma continuation_parts (c : content) (line : str) (t : Transaction) :
  anchor line = None -> opened c = Some t ->
  parts (line_effect c line) = parts c ++ option_list (kept_text line).
Proof.
  unfold anchor, line_effect. intros Ha Ho.
  destruct (_is_junk_line line) eqn:Hj.
  - unfold kept_text. rewrite Hj. by rewrite app_nil_r.
  - rewrite Ha, Ho. cbn [parts]. by apply add_part_kept.
Qed.

Lemma option_list_omap (l : list str) (x : str) :
  option_list (kept_text x) ++ omap kept_text l = omap kept_text (x :: l).
Proof. cbn [omap list_omap]. by destruct (kept_text x). Qed.

(** X5. A transaction is described by its own lines, in their order.  For
    a line that opens a transaction (it starts with a date and is not junk)
    followed by lines that open none: the description is the text after the
    date, then the text every following line keeps (none for junk and for a
    text of one or two characters); the parts are joined and normalized by
    [_clean_description]. *)
Theorem description_collects_the_lines (line d : str) (conts : list str) :
  anchor line = Some d ->
  Forall (fun l => anchor l = None) conts ->
  exists t, parse_lines (line :: conts) = [t]
    /\ date t = d
    /\ description t = _clean_description (first_parts d line ++ omap kept_text conts).
Proof.
  intros Ha Hconts. rewrite parse_lines_content. cbn [fold_left].
  rewrite (anchor_effect _ line d Ha). cbn [no_content saved closed opened app].
  assert (H : forall c t, saved c = [] -> opened c = Some t ->
             let c' := fold_left line_effect conts c in
             saved c' = []
             /\ (exists t', opened c' = Some t' /\ date t' = date t)
             /\ parts c' = parts c ++ omap kept_text conts).
  { induction Hconts as [|l conts Hl Hconts IH]; intros c t Hs Ho.
    { cbn. split; [done|]. split; [by exists t|by rewrite app_nil_r]. }
    cbn [fold_left].
    destruct (continuation_effect c l Hl) as [Hs' Ho']. rewrite Ho in Ho'.
    destruct Ho' as (t1 & Ht1 & Hd1).
    destruct (IH (line_effect c l) t1) as (Hs2 & (t2 & Ht2 & Hd2) & Hp2);
      [congruence|done|].
    split; [done|]. split; [exists t2; split; [done|congruence]|].
    rewrite Hp2, (continuation_parts c l t Hl Ho), <- app_assoc.
    by rewrite option_list_omap. }
  destruct (H (Content [] (Some (opened_by d line)) (first_parts d line))
              (opened_by d line) eq_refl eq_refl) as (Hs & (t & Ht & Hd) & Hp).
  cbv zeta. rewrite Hs. unfold closed. rewrite Ht, Hp. cbn [parts].
  eexists. split; [done|]. split; [|done].
  cbn [date set_description]. by rewrite Hd, opened_by_date.
Qed.

Lemma description_collects_the_lines_example :
  exists t,
    parse_lines [py "12/02/2025 Tea"; py "ID: 77"; py "ok"; py "with milk 1.20"] = [t]
    /\ date t = py "12/02/2025"
    /\ description t = py "Tea with milk".
Proof.
  destruct (description_collects_the_lines (py "12/02/2025 Tea") (py "12/02/2025")
              [py "ID: 77"; py "ok"; py "with milk 1.20"]) as (t & H1 & H2 & H3).
  - reflexivity.
  - repeat constructor.
  - exists t. split; [exact H1|]. split; [exact H2|]. exact H3.
Defined.

(** ** Dates, currency and amounts *)

Lemma run_consumes_at_most (ic : bool) (r : regex) :
  forall m, max_len r = Some m ->
  forall k p q,
    run ic r k p = Some q ->
    exists p', k p' = Some q
               /\ (length (ahead p) <= length (ahead p') + m)%nat.
Proof.
  induction r as [|cs|r1 IH1 r2 IH2|r1 IH1 r2 IH2|r1 IH1| | |];
    intros m Hm k p q; cbn [run max_len] in *.
  - injection Hm as <-. intros H. exists p. split; [done|lia].
  - injection Hm as <-. destruct (ahead p) as [|c s] eqn:Hp; [done|].
    destruct (accepts ic cs c); [|done]. intros H.
    exists (Cursor (Some c) s). split; [done|]. cbn [ahead length]. lia.
  - destruct (max_len r1) as [m1|]; [|done]. destruct (max_len r2) as [m2|]; [|done].
    injection Hm as <-. intros H.
    apply (IH1 m1 eq_refl) in H as (p1 & H & L1).
    apply (IH2 m2 eq_refl) in H as (p2 & H & L2).
    exists p2. split; [done|lia].
  - destruct (max_len r1) as [m1|]; [|done]. destruct (max_len r2) as [m2|]; [|done].
    injection Hm as <-.
    destruct (run ic r1 k p) as [q1|] eqn:H1.
    + intros [= <-]. apply (IH1 m1 eq_refl) in H1 as (p' & H & L).
      exists p'. split; [done|lia].
    + intros H. apply (IH2 m2 eq_refl) in H as (p' & H & L).
      exists p'. split; [done|lia].
  - done.
  - injection Hm as <-. destruct (before p); [done|]. intros H.
    exists p. split; [done|lia].
  - injection Hm as <-. intros H. exists p. split; [|lia].
    destruct (ahead p) as [|c [|]]; [done| |done].
    by destruct (c =? newline).
  - injection Hm as <-. destruct (xorb _ _); [|done]. intros H.
    exists p. split; [done|lia].
Qed.

Lemma match_at_max_len (ic : bool) (r : regex) (p : cursor) (n m : nat) :
  max_len r = Some m -> match_at ic r p = Some n -> (n <= m)%nat.
Proof.
  intros Hm. unfold match_at.
  destruct (run ic r Some p) as [q|] eqn:H; [|done].
  intros [= <-]. apply (run_consumes_at_most ic r m Hm) in H as (p' & [= ->] & L). lia.
Qed.

(** The date of a line is its first 8 to 10 characters. *)
Lemma date_match_length (line d : str) :
  re_match false DATE_PATTERN line = Some d ->
  d = take (length d) line /\ (8 <= length d <= 10)%nat.
Proof.
  unfold re_match.
  destruct (match_at false DATE_PATTERN (Cursor None line)) as [n|] eqn:Hm; [|done].
  intros [= <-].
  pose proof (match_at_min_len false _ _ _ Hm) as [Hmin Hle].
  pose proof (match_at_max_len false DATE_PATTERN _ n 10 eq_refl Hm) as Hmax.
  change (min_len DATE_PATTERN) with 8%nat in Hmin. cbn [ahead] in Hle.
  rewrite length_take. rewrite Nat.min_l by done. split; [done|lia].
Qed.

Lemma remove_commas_no_comma (s : str) : Forall (fun c => c <> 44) (remove_commas s).
Proof.
  apply Forall_forall. intros c Hc. unfold remove_commas in Hc.
  by apply list_elem_of_filter in Hc as [Hc _].
Qed.

Lemma assign_value_plain_fields (s : str) (t : Transaction) :
  plain_fields t -> plain_fields (assign_value (re_findall false AMOUNT_PATTERN s) t).
Proof.
  intros (Hc & Hd & Ha & Hn). unfold assign_value.
  destruct (last _) as [a|] eqn:Hlast; [|done].
  split; [done|]. split; [done|]. split.
  - by apply (assigned_amount_not_empty s).
  - apply remove_commas_no_comma.
Qed.

Lemma line_effect_plain_fields (c : content) (line : str) :
  Forall plain_fields (saved c) -> (forall t, opened c = Some t -> plain_fields t) ->
  Forall plain_fields (saved (line_effect c line))
  /\ (forall t, opened (line_effect c line) = Some t -> plain_fields t).
Proof.
  intros Hs Ho.
  assert (Hclosed : Forall plain_fields (closed c)).
  { unfold closed. destruct (opened c) as [t|]; [|constructor].
    constructor; [|constructor]. by destruct (Ho t eq_refl) as (? & ? & ? & ?). }
  unfold line_effect. destruct (_is_junk_line line); [done|].
  destruct (re_match false DATE_PATTERN line) as [d|] eqn:Hd; cbn [saved opened].
  - split; [by apply Forall_app|]. intros t [= <-].
    apply assign_value_plain_fields.
    apply date_match_length in Hd as [_ Hlen].
    split; [done|]. split; [done|]. split; [done|]. by repeat constructor.
  - destruct (opened c) as [t|] eqn:Hc; cbn [saved opened];
      [|split; [done|]; intros t' Ht'; apply Ho; congruence].
    split; [done|]. intros t' [= <-].
    destruct (negb _ && _); [apply assign_value_plain_fields|]; by apply Ho.
Qed.

(** X6. Every transaction [parse] returns has the currency "USD", a date of
    8 to 10 characters, and an amount that is not empty and has no comma. *)
Theorem returned_fields_are_plain (pages : list (list str)) :
  Forall plain_fields (parse pages).
Proof.
  rewrite parse_as_lines, parse_lines_content. cbv zeta.
  assert (H : forall lines c,
            Forall plain_fields (saved c) ->
            (forall t, opened c = Some t -> plain_fields t) ->
            let c' := fold_left line_effect lines c in
            Forall plain_fields (saved c')
            /\ (forall t, opened c' = Some t -> plain_fields t)).
  { induction lines as [|line lines IH]; intros c Hs Ho; [done|].
    cbn [fold_left]. destruct (line_effect_plain_fields c line Hs Ho). by apply IH. }
  destruct (H (all_lines pages) no_content) as [Hs Ho]; [constructor|done|].
  apply Forall_app. split; [done|]. unfold closed.
  destruct (opened _) as [t|]; [|constructor].
  constructor; [|constructor]. by destruct (Ho t eq_refl) as (? & ? & ? & ?).
Qed.

(** ** Stripped lines and normalized descriptions *)

Lemma lstrip_with_snoc_keeps (f : char -> bool) (s : str) (c : char) :
  f c = false -> lstrip_with f (s ++ [c]) = lstrip_with f s ++ [c].
Proof.
  intros Hc. induction s as [|x s IH]; cbn [app lstrip_with]; [by rewrite Hc|].
  by destruct (f x).
Qed.

Lemma rstrip_with_cons_keeps (f : char -> bool) (c : char) (s : str) :
  f c = false -> rstrip_with f (c :: s) = c :: rstrip_with f s.
Proof.
  intros Hc. unfold rstrip_with. cbn [rev].
  rewrite lstrip_with_snoc_keeps by done. rewrite rev_app_distr. done.
Qed.

Lemma lstrip_with_dropped (f : char -> bool) (s : str) :
  exists dropped, s = dropped ++ lstrip_with f s /\ forallb f dropped = true.
Proof.
  induction s as [|c s (dropped & Hs & Hd)]; cbn [lstrip_with]; [by exists []|].
  destruct (f c) eqn:Hc; [|by exists []].
  exists (c :: dropped). split; [by cbn; f_equal|]. cbn. by rewrite Hc.
Qed.

Lemma rstrip_with_dropped (f : char -> bool) (s : str) :
  exists dropped, s = rstrip_with f s ++ dropped /\ forallb f dropped = true.
Proof.
  destruct (lstrip_with_dropped f (rev s)) as (dropped & Hs & Hd).
  exists (rev dropped). split; [|by rewrite forallb_rev].
  unfold rstrip_with. rewrite <- rev_app_distr, <- Hs. by rewrite rev_involutive.
Qed.

Lemma rstrip_with_last (f : char -> bool) (s : str) (c : char) :
  last (rstrip_with f s) = Some c -> f c = false.
Proof.
  unfold rstrip_with. intros H.
  destruct (lstrip_with f (rev s)) as [|x t] eqn:Hl; [done|].
  cbn [rev] in H. rewrite last_snoc in H. injection H as <-. by apply lstrip_with_head in Hl.
Qed.

(** A stripped string has no character to strip at either end. *)
Lemma strip_with_ends (f : char -> bool) (s : str) :
  (forall c, head (strip_with f s) = Some c -> f c = false)
  /\ (forall c, last (strip_with f s) = Some c -> f c = false).
Proof.
  unfold strip_with. split; [|apply rstrip_with_last].
  destruct (lstrip_with f s) as [|x t] eqn:Hl; [done|].
  apply lstrip_with_head in Hl. rewrite rstrip_with_cons_keeps by done.
  by intros c [= <-].
Qed.

Lemma strip_with_fixed (f : char -> bool) (s : str) :
  (forall c, head s = Some c -> f c = false) ->
  (forall c, last s = Some c -> f c = false) ->
  strip_with f s = s.
Proof.
  intros Hh Hl. destruct s as [|c s]; [done|].
  unfold strip_with. rewrite lstrip_with_keeps by (by apply Hh).
  destruct (exists_last (l := c :: s)) as (t & x & Hs); [done|].
  rewrite Hs in *. apply rstrip_with_keeps. apply Hl. by rewrite last_snoc.
Qed.

Lemma strip_with_idempotent (f : char -> bool) (s : str) :
  strip_with f (strip_with f s) = strip_with f s.
Proof. destruct (strip_with_ends f s). by apply strip_with_fixed. Qed.

(** X7. The lines the parser reads are not empty and have no whitespace at
    either end, so reading them once more as a page gives the same lines. *)
Theorem page_lines_are_stripped (page : list str) :
  Forall (fun line => line <> []
                      /\ (forall c, head line = Some c -> is_space c = false)
                      /\ (forall c, last line = Some c -> is_space c = false))
         (page_lines page)
  /\ page_lines (page_lines page) = page_lines page.
Proof.
  assert (H : Forall (fun line => line <> [] /\ strip line = line) (page_lines page)).
  { unfold page_lines. apply Forall_forall. intros line Hin.
    apply list_elem_of_filter in Hin as [Hne Hin].
    apply list_elem_of_fmap in Hin as (raw & -> & _).
    split; [by destruct (strip raw)|]. apply strip_with_idempotent. }
  split.
  - eapply Forall_impl; [exact H|]. intros line [Hne Hs]. split; [done|].
    rewrite <- Hs. apply strip_with_ends.
  - induction H as [|line lines [Hne Hs] Hlines IH]; [done|].
    unfold page_lines in *. cbn [map]. rewrite Hs.
    rewrite filter_cons_True by (by destruct line). f_equal. exact IH.
Qed.

Lemma run_star_space (s : str) :
  forall b, exists b',
    run false (Star space) Some (Cursor b s) = Some (Cursor b' (lstrip_with is_space s)).
Proof.
  induction s as [|c s IH]; intros b; [by exists b|].
  cbn [run ahead length lstrip_with]. unfold space at 1. cbn [run ahead].
  unfold accepts. cbn [existsb cls_has andb orb].
  rewrite orb_false_r. destruct (is_space c) eqn:Hc; [|by exists b].
  cbn [ahead length]. rewrite (proj2 (Nat.ltb_lt _ _) (Nat.lt_succ_diag_r _)).
  destruct (IH (Some c)) as [b' Hrun]. cbn [run ahead] in Hrun.
  rewrite Hrun. by exists b'.
Qed.

Lemma run_cat (ic : bool) (r1 r2 : regex) (k : cursor -> option cursor) (p : cursor) :
  run ic (Cat r1 r2) k p = run ic r1 (run ic r2 k) p.
Proof. done. Qed.

Lemma run_sym (ic : bool) (cs : list cls) (k : cursor -> option cursor)
    (b : option char) (c : char) (s : str) :
  run ic (Sym cs) k (Cursor b (c :: s))
  = if accepts ic cs c then k (Cursor (Some c) s) else None.
Proof. done. Qed.

(** A whitespace character starts a match of [\s+] that takes the whole run
    of whitespace. *)
Lemma spaces_run_here (b : option char) (c : char) (s : str) :
  is_space c = true ->
  match_at false SPACES (Cursor b (c :: s))
  = Some (S (length s - length (lstrip_with is_space s))).
Proof.
  intros Hc. unfold match_at, SPACES, Plus.
  rewrite run_cat. unfold space at 1. rewrite run_sym.
  unfold accepts. cbn [existsb cls_has andb orb]. rewrite Hc. cbn [orb].
  destruct (run_star_space s (Some c)) as [b' ->]. cbn [ahead length].
  destruct (lstrip_with_dropped is_space s) as (dropped & Hs & _).
  apply (f_equal length) in Hs. rewrite length_app in Hs. f_equal. lia.
Qed.

Lemma sub_scan_step (ic : bool) (r : regex) (repl : str)
    (b : option char) (c : char) (s : str) :
  sub_scan ic r repl b (c :: s) 0
  = match match_at ic r (Cursor b (c :: s)) with
    | Some (S n) => repl ++ sub_scan ic r repl (Some c) s n
    | _ => c :: sub_scan ic r repl (Some c) s 0
    end.
Proof. done. Qed.

Lemma sub_scan_skip (ic : bool) (r : regex) (repl : str) (dropped rest : str) :
  forall b, exists b',
    sub_scan ic r repl b (dropped ++ rest) (length dropped)
    = sub_scan ic r repl b' rest 0.
Proof.
  induction dropped as [|c dropped IH]; intros b; [by exists b|].
  cbn [app length sub_scan]. apply IH.
Qed.

Lemma split_ws_from_spaces_front (dropped s : str) :
  forallb is_space dropped = true ->
  split_ws_from (dropped ++ s) [] = split_ws_from s [].
Proof.
  induction dropped as [|c dropped IH]; [done|]. cbn [forallb app split_ws_from].
  intros H. apply andb_true_iff in H as [-> H]. by apply IH.
Qed.

Lemma split_ws_from_spaces_back (dropped : str) :
  forallb is_space dropped = true ->
  forall s word, split_ws_from (s ++ dropped) word = split_ws_from s word.
Proof.
  intros Hd.
  assert (Hend : forall word, split_ws_from dropped word = split_ws_from [] word).
  { induction dropped as [|c dropped IH]; [done|]. cbn [forallb] in Hd.
    apply andb_true_iff in Hd as [Hc Hd]. intros word. cbn [split_ws_from].
    rewrite Hc. destruct word; rewrite (IH Hd); done. }
  induction s as [|c s IH]; intros word; [apply Hend|].
  cbn [app split_ws_from]. destruct (is_space c); [|apply IH].
  destruct word; by rewrite IH.
Qed.

Lemma split_ws_strip (s : str) : split_ws (strip s) = split_ws s.
Proof.
  unfold split_ws, strip, strip_with.
  destruct (lstrip_with_dropped is_space s) as (d1 & Hs1 & Hd1).
  destruct (rstrip_with_dropped is_space (lstrip_with is_space s)) as (d2 & Hs2 & Hd2).
  rewrite Hs1 at 2. rewrite (split_ws_from_spaces_front _ _ Hd1).
  rewrite Hs2 at 2. by rewrite (split_ws_from_spaces_back _ Hd2).
Qed.

Lemma split_ws_from_not_nil (s word : str) : word <> [] -> split_ws_from s word <> [].
Proof.
  revert word. induction s as [|c s IH]; intros word Hw; cbn [split_ws_from].
  - by destruct word.
  - destruct (is_space c); [by destruct word|]. apply IH. by destruct word.
Qed.

Lemma forallb_last (f : char -> bool) (s : str) (c : char) :
  forallb f s = true -> last s = Some c -> f c = true.
Proof.
  intros Hall Hl. apply last_Some in Hl as [t ->].
  rewrite forallb_app in Hall. apply andb_true_iff in Hall as [_ Hc].
  cbn in Hc. by rewrite andb_true_r in Hc.
Qed.

(** On a text with no whitespace at the end, [re.sub(r'\s+', ' ', .)] writes
    the words of the text with single spaces between them. *)
Lemma sub_spaces_words (n : nat) :
  forall s, (length s <= n)%nat ->
    (forall c, last s = Some c -> is_space c = false) ->
    forall word b,
      (word = [] -> forall c, head s = Some c -> is_space c = false) ->
      word ++ sub_scan false SPACES (py " ") b s 0
      = join (py " ") (split_ws_from s word).
Proof.
  induction n as [|n IH]; intros s Hlen Hlast word b Hhead.
  { destruct s; [|cbn in Hlen; lia]. cbn. rewrite app_nil_r. by destruct word. }
  destruct s as [|c s]. { cbn. rewrite app_nil_r. by destruct word. }
  cbn [length] in Hlen. rewrite sub_scan_step. cbn [split_ws_from].
  destruct (is_space c) eqn:Hc.
  - rewrite spaces_run_here by done.
    destruct (lstrip_with_dropped is_space s) as (dropped & Hs & Hd).
    set (s' := lstrip_with is_space s) in *.
    assert (Hl : (length s = length dropped + length s')%nat).
    { rewrite Hs at 1. apply length_app. }
    assert (Hk : (length s - length s' = length dropped)%nat) by lia.
    rewrite Hk. rewrite Hs at 1.
    destruct (sub_scan_skip false SPACES (py " ") dropped s' (Some c)) as [b' ->].
    assert (Hword : word <> []).
    { intros ->. specialize (Hhead eq_refl c eq_refl). congruence. }
    assert (Hs' : s' <> []).
    { intros Hnil. rewrite Hnil, app_nil_r in Hs.
      assert (Hall : forallb is_space (c :: s) = true).
      { cbn. rewrite Hc. by rewrite Hs. }
      destruct (last (c :: s)) as [x|] eqn:Hx; [|by apply last_None in Hx].
      pose proof (forallb_last _ _ _ Hall Hx). specialize (Hlast x eq_refl). congruence. }
    assert (Hlast' : forall x, last s' = Some x -> is_space x = false).
    { intros x Hx. apply Hlast. rewrite Hs. rewrite last_cons, last_app, Hx. done. }
    assert (Hhead' : forall x, head s' = Some x -> is_space x = false).
    { intros x Hx. destruct s' as [|y t] eqn:Hy; [done|]. injection Hx as <-.
      by apply (lstrip_with_head is_space s y t). }
    assert (Hlen' : (length s' <= n)%nat) by lia.
    pose proof (IH s' Hlen' Hlast' [] b' (fun _ => Hhead')) as Hrec.
    cbn [app] in Hrec. rewrite Hrec.
    pose proof (split_ws_from_spaces_front dropped s' Hd) as Hsp.
    rewrite <- Hs in Hsp. rewrite Hsp.
    assert (Hne : split_ws_from s' [] <> []).
    { destruct s' as [|y t]; [done|]. cbn [split_ws_from].
      rewrite (Hhead' y eq_refl). by apply split_ws_from_not_nil. }
    destruct word as [|w0 word]; [done|].
    destruct (split_ws_from s' []) as [|p ps]; [done|]. by rewrite join_more.
  - rewrite spaces_not_here by done.
    assert (Hlast' : forall x, last s = Some x -> is_space x = false).
    { intros x Hx. apply Hlast. rewrite last_cons, Hx. done. }
    assert (Hlen' : (length s <= n)%nat) by lia.
    pose proof (IH s Hlen' Hlast' (word ++ [c]) (Some c)) as Hrec.
    rewrite <- Hrec; [by rewrite <- app_assoc|]. intros Hnil. by destruct word.
Qed.

(** Stripping a text and collapsing its whitespace gives its words with one
    space between them. *)
Lemma sub_spaces_strip (s : str) :
  re_sub false SPACES (py " ") (strip s) = join (py " ") (split_ws s).
Proof.
  unfold re_sub. rewrite <- (split_ws_strip s). unfold split_ws.
  destruct (strip_with_ends is_space s) as [Hh Hl]. fold (strip s) in Hh, Hl.
  rewrite <- (sub_spaces_words _ _ (Nat.le_refl _) Hl [] None (fun _ => Hh)). done.
Qed.

(** X8. [_clean_description] gives the words of the parts, in order, with
    one space between them. *)
Theorem clean_description_is_the_words (parts : list str) :
  _clean_description parts = join (py " ") (split_ws (join (py " ") parts)).
Proof. unfold _clean_description. cbv zeta. apply sub_spaces_strip. Qed.

Lemma join_words_single_spaced (s : str) : single_spaced (join (py " ") (split_ws s)).
Proof. unfold single_spaced. by rewrite (split_ws_join _ (split_ws_words s)). Qed.

Lemma closed_single_spaced (c : content) :
  Forall (fun t => single_spaced (description t)) (closed c).
Proof.
  unfold closed. destruct (opened c) as [t|]; [|constructor].
  constructor; [|constructor]. cbn [description set_description].
  unfold _clean_description. rewrite sub_spaces_strip. apply join_words_single_spaced.
Qed.

Lemma line_effect_single_spaced (c : content) (line : str) :
  Forall (fun t => single_spaced (description t)) (saved c) ->
  Forall (fun t => single_spaced (description t)) (saved (line_effect c line)).
Proof.
  intros Hs. unfold line_effect. destruct (_is_junk_line line); [done|].
  destruct (re_match false DATE_PATTERN line) as [d|]; cbn [saved].
  - apply Forall_app. split; [done|apply closed_single_spaced].
  - by destruct (opened c).
Qed.

(** X9. The description of every transaction [parse] returns is
    normalized: no whitespace at either end, and nothing but one space
    between its words. *)
Theorem returned_descriptions_are_single_spaced (pages : list (list str)) :
  Forall (fun t => single_spaced (description t)) (parse pages).
Proof.
  rewrite parse_as_lines, parse_lines_content. cbv zeta.
  apply Forall_app. split; [|apply closed_single_spaced].
  generalize (all_lines pages). intros lines.
  assert (H : forall c, Forall (fun t => single_spaced (description t)) (saved c) ->
                Forall (fun t => single_spaced (description t))
                       (saved (fold_left line_effect lines c))).
  { induction lines as [|line lines IH]; intros c Hs; [done|].
    cbn [fold_left]. by apply IH, line_effect_single_spaced. }
  apply H. constructor.
Qed.

(** ** Noise keywords and cleaned text *)

Lemma word_is_not_spaced (w kw : str) :
  Forall (fun c => is_space c = false) w -> 32 ∈ kw -> str_eqb w kw = false.
Proof.
  intros Hw Hkw. unfold str_eqb. apply bool_decide_eq_false. intros ->.
  rewrite Forall_forall in Hw. by specialize (Hw 32 Hkw).
Qed.

(** X10. The words the cleaner and the scorer test against the noise
    keywords have no whitespace in them, so the keywords of several words
    ("ref id:", "individual id:", "preapproved payment", "bill user
    payment") never apply: only the seven keywords of one word do. *)
Theorem only_single_word_noise_applies (w : str) :
  is_a_word w -> mem w NOISE_KEYWORDS = mem w NOISE_WORDS.
Proof.
  intros [_ Hw]. unfold mem, NOISE_KEYWORDS, NOISE_WORDS. cbn [existsb].
  rewrite (word_is_not_spaced w (py "ref id:") Hw) by (apply list_elem_of_In; vm_compute; tauto).
  rewrite (word_is_not_spaced w (py "individual id:") Hw) by (apply list_elem_of_In; vm_compute; tauto).
  rewrite (word_is_not_spaced w (py "preapproved payment") Hw) by (apply list_elem_of_In; vm_compute; tauto).
  rewrite (word_is_not_spaced w (py "bill user payment") Hw) by (apply list_elem_of_In; vm_compute; tauto).
  cbn [orb]. done.
Qed.

Lemma only_single_word_noise_applies_example :
  mem (py "payment") NOISE_KEYWORDS = mem (py "payment") NOISE_WORDS
  /\ _clean_text (py "Preapproved Payment 5.00 Gym") = py "Preapproved Payment Gym".
Proof.
  split; [|vm_compute; reflexivity].
  apply only_single_word_noise_applies. split; [done|]. by repeat constructor.
Defined.

(** X11. What [_clean_text] returns is normalized (no whitespace at either
    end, one space between words), and none of its words is a noise keyword,
    in any case. *)
Theorem clean_text_is_words_without_noise (text : str) :
  single_spaced (_clean_text text)
  /\ Forall (fun w => mem (lower w) NOISE_KEYWORDS = false) (split_ws (_clean_text text)).
Proof.
  destruct (clean_text_shape text) as [->|(ws & _ & Hwords & Hnoise & ->)].
  - split; [done|constructor].
  - unfold single_spaced. by rewrite (split_ws_join ws Hwords).
Qed.

(** ** The chunk the scoring picks *)

Lemma ranked_chunk (chunk : str) (score : Z) (cleaned : str) :
  ranked chunk = Some (score, cleaned) ->
  cleaned = _clean_text chunk /\ _score_chunk cleaned = Ok score
  /\ (0 < score)%Z /\ (3 <= length cleaned)%nat.
Proof.
  unfold ranked. destruct (_clean_text chunk) as [|c s] eqn:Hc; [done|].
  cbn [is_empty]. destruct (_score_chunk (c :: s)) as [sc|] eqn:Hs; [|done].
  destruct (0 <? sc)%Z eqn:Hpos; [|done]. intros [= <- <-].
  apply Z.ltb_lt in Hpos. split; [done|]. split; [done|]. split; [done|].
  destruct (length (c :: s) <? 3)%nat eqn:H3; [|by apply Nat.ltb_ge in H3].
  apply Nat.ltb_lt in H3. unfold _score_chunk in Hs.
  rewrite (proj2 (Nat.ltb_ge _ _)) in Hs by lia.
  rewrite (proj2 (Nat.ltb_ge _ _)) in Hs by lia.
  rewrite (proj2 (Nat.ltb_lt _ _) H3) in Hs. injection Hs as <-. lia.
Qed.

Lemma omap_ranked_nil (chunks : list str) :
  omap ranked chunks = [] -> forall chunk, chunk ∈ chunks -> ranked chunk = None.
Proof.
  induction chunks as [|ch chunks IH]; intros H chunk Hin; [by apply elem_of_nil in Hin|].
  cbn [omap list_omap] in H. destruct (ranked ch) eqn:Hr; [done|].
  apply elem_of_cons in Hin as [->|Hin]; [done|by apply IH].
Qed.

(** X12. What the scoring path returns.  When some chunk of the description
    is ranked (its cleaned text is not empty and scores above 0), the payee
    is the cleaned text of a ranked chunk whose score no ranked chunk
    exceeds, and it has 3 characters or more.  Otherwise it is the first 80
    characters of the cleaned description when there is one, and "Unknown"
    when the cleaned description is empty: at most 80 characters. *)
Theorem scoring_returns_a_highest_chunk (description : str) :
  let chunks := re_split false CHUNK_SEP description in
  (exists best score cleaned,
      best ∈ chunks /\ ranked best = Some (score, cleaned)
      /\ _extract_intelligent description = Ok cleaned
      /\ cleaned = _clean_text best /\ (3 <= length cleaned)%nat
      /\ forall chunk y, chunk ∈ chunks -> ranked chunk = Some y -> (fst y <= score)%Z)
  \/ ((forall chunk, chunk ∈ chunks -> ranked chunk = None)
      /\ exists payee, _extract_intelligent description = Ok payee
           /\ payee = (if is_empty (_clean_text description) then py "Unknown"
                       else take 80 (_clean_text description))
           /\ (length payee <= 80)%nat).
Proof.
  intros chunks. unfold _extract_intelligent. fold chunks.
  rewrite score_chunks_in_order. cbn [bind].
  destruct (omap ranked chunks) as [|x scored] eqn:Hscored.
  - right. split; [by apply omap_ranked_nil|].
    destruct (_clean_text description) as [|c s]; cbn [take is_empty].
    + exists (py "Unknown"). split; [done|]. split; [done|]. cbn. lia.
    + exists (c :: take 79 s). split; [done|]. split; [done|].
      cbn [length]. rewrite length_take. lia.
  - left.
    destruct (first_highest_exists (x :: scored)) as (pre & y & post & Hl & Hpre & Hpost);
      [done|].
    destruct (sort_desc_head pre post y Hpre Hpost) as [others Hsort].
    rewrite Hl, Hsort. destruct y as [score cleaned].
    assert (Hin : (score, cleaned) ∈ omap ranked chunks).
    { rewrite Hscored, Hl. apply elem_of_app. right. by left. }
    apply list_elem_of_omap in Hin as (best & Hbest & Hranked).
    destruct (ranked_chunk best score cleaned Hranked) as (Hc & _ & _ & Hlen).
    exists best, score, cleaned.
    split; [done|]. split; [done|]. split; [done|]. split; [done|]. split; [done|].
    intros chunk y Hchunk Hy.
    assert (Hy' : y ∈ pre ++ (score, cleaned) :: post).
    { rewrite <- Hl, <- Hscored. apply list_elem_of_omap. by exists chunk. }
    apply elem_of_app in Hy' as [Hy'|Hy'].
    + rewrite Forall_forall in Hpre. specialize (Hpre y Hy'). cbn in Hpre. lia.
    + apply elem_of_cons in Hy' as [->|Hy']; [cbn; lia|].
      rewrite Forall_forall in Hpost. by apply (Hpost y).
Qed.

(** ** The rows of the table *)

Lemma extract_returns (description : str) :
  exists payee, extract description = Ok payee /\ payee <> [].
Proof.
  unfold extract. destruct (is_empty description || is_empty (strip description)).
  { by exists (py "Unknown"). }
  destruct (_extract_after_prefix description) as [[|c found]|];
    [apply extract_intelligent_ok|by eexists|apply extract_intelligent_ok].
Qed.

Lemma to_row_returns (t : Transaction) :
  exists payee, extract (description t) = Ok payee /\ payee <> []
    /\ to_row t = Ok [date t; description t; currency t; amount t; fees t; total t; payee].
Proof.
  destruct (extract_returns (description t)) as (payee & He & Hne).
  exists payee. split; [done|]. split; [done|].
  unfold to_row, clean_payee. by rewrite He.
Qed.

Lemma to_rows_returns (transactions : list Transaction) :
  exists rows, to_rows transactions = Ok rows
    /\ Forall2 (fun t row => to_row t = Ok row) transactions rows.
Proof.
  induction transactions as [|t ts (rows & Hrows & Hall)]; [by exists []|].
  destruct (to_row_returns t) as (payee & _ & _ & Hrow).
  eexists. cbn [to_rows]. rewrite Hrow, Hrows. cbn [bind].
  split; [done|]. by constructor.
Qed.

(** X13. The table [CSVWriter.write] hands to the csv writer is complete and
    rectangular, whatever the transactions: the header first, then one row
    for every transaction in order; every row has the 7 fields of the
    header, the six stored fields as they are and then the payee, which is
    never empty.  No row makes the writing fail. *)
Theorem written_rows_are_rectangular (transactions : list Transaction) :
  exists rows,
    written_rows transactions = Ok (HEADERS :: rows)
    /\ length rows = length transactions
    /\ Forall (fun row => length row = length HEADERS) (HEADERS :: rows)
    /\ Forall2 (fun t row =>
                  exists payee,
                    row = [date t; description t; currency t; amount t; fees t;
                           total t; payee]
                    /\ extract (description t) = Ok payee /\ payee <> [])
               transactions rows.
Proof.
  destruct (to_rows_returns transactions) as (rows & Hrows & Hall).
  exists rows. unfold written_rows. rewrite Hrows. cbn [bind].
  split; [done|]. split; [symmetry; by eapply Forall2_length|].
  assert (Hshape : Forall2 (fun t row =>
                     exists payee,
                       row = [date t; description t; currency t; amount t; fees t;
                              total t; payee]
                       /\ extract (description t) = Ok payee /\ payee <> [])
                     transactions rows).
  { eapply Forall2_impl; [exact Hall|]. intros t row Hrow.
    destruct (to_row_returns t) as (payee & He & Hne & Hrow').
    exists payee. split; [congruence|done]. }
  split; [|done]. constructor; [done|].
  clear -Hshape. induction Hshape as [|t row ts rows (payee & -> & _) _ IH];
    by constructor.
Qed.

(** X14. From the pages to the table: the rows written for a parsed
    statement are the header and one row for every line that is not junk and
    starts with a date, and such a row begins with that date. *)
Theorem table_has_a_row_per_date_line (pages : list (list str)) :
  exists rows,
    written_rows (parse pages) = Ok (HEADERS :: rows)
    /\ omap head rows = omap anchor (all_lines pages)
    /\ length rows = length (omap anchor (all_lines pages)).
Proof.
  destruct (to_rows_returns (parse pages)) as (rows & Hrows & Hall).
  exists rows. unfold written_rows. rewrite Hrows. cbn [bind]. split; [done|].
  assert (Hdates : map date (parse pages) = omap anchor (all_lines pages)).
  { rewrite parse_as_lines, parse_lines_content.
    apply (fold_line_effect_dates (all_lines pages) no_content). }
  rewrite <- Hdates. clear Hdates Hrows.
  induction Hall as [|t row ts rows Hrow _ [IH1 IH2]]; [done|].
  destruct (to_row_returns t) as (payee & _ & _ & Hrow').
  rewrite Hrow' in Hrow. injection Hrow as <-.
  cbn [omap list_omap head map length]. by rewrite IH1, IH2.
Qed.

(** ** What the prefix path gives *)

Lemma after_prefix_result (prefixes : list str) (text : str) :
  match after_prefix prefixes text with
  | Some payee =>
      payee <> []
      /\ exists before prefix after,
           prefixes = before ++ prefix :: after
           /\ Forall (fun p => cleaned_after p text = []) before
           /\ payee = cleaned_after prefix text
  | None => Forall (fun p => cleaned_after p text = []) prefixes
  end.
Proof.
  induction prefixes as [|p prefixes IH]; [constructor|].
  rewrite after_prefix_cons.
  destruct (cleaned_after p text) as [|c s] eqn:Hp; cbn [is_empty].
  - destruct (after_prefix prefixes text) as [payee|].
    + destruct IH as (Hne & before & prefix & after & -> & Hbefore & ->).
      split; [done|]. exists (p :: before), prefix, after.
      split; [done|]. split; [by constructor|done].
    + by constructor.
  - split; [done|]. exists [], p, prefixes. split; [done|]. split; [constructor|done].
Qed.

(** X15. On an ASCII text, the prefix path gives nothing exactly when no
    prefix of the list leaves text after cleaning; what it gives is never
    empty, and is always the cleaned text after the first occurrence of the
    first prefix, in the order of the list, that leaves some.  (The text is
    ASCII so that the place found in [text.lower()] is the place in
    [text].) *)
Theorem prefix_path_result (text : str) :
  is_ascii text = true ->
  match _extract_after_prefix text with
  | Some payee =>
      payee <> []
      /\ exists before prefix after,
           PAYEE_PREFIXES = before ++ prefix :: after
           /\ Forall (fun p => cleaned_after p text = []) before
           /\ payee = cleaned_after prefix text
  | None => Forall (fun p => cleaned_after p text = []) PAYEE_PREFIXES
  end.
Proof. intros _. unfold _extract_after_prefix. apply after_prefix_result. Qed.

(** "Transaction:" occurs with nothing after it, "Payment to:" with a name. *)
Lemma prefix_path_result_example :
  _extract_after_prefix (py "Payment to: Acme Corp Transaction:")
    = Some (py "Acme Corp Transaction:")
  /\ match _extract_after_prefix (py "Payment to: Acme Corp Transaction:") with
     | Some payee =>
         payee <> []
         /\ exists before prefix after,
              PAYEE_PREFIXES = before ++ prefix :: after
              /\ Forall (fun p => cleaned_after p (py "Payment to: Acme Corp Transaction:") = [])
                        before
              /\ payee = cleaned_after prefix (py "Payment to: Acme Corp Transaction:")
     | None => Forall (fun p => cleaned_after p (py "Payment to: Acme Corp Transaction:") = [])
                      PAYEE_PREFIXES
     end.
Proof.
  split; [vm_compute; reflexivity|].
  apply (prefix_path_result (py "Payment to: Acme Corp Transaction:")).
  reflexivity.
Defined.

(** ** Reading more lines *)

Lemma closed_at_most_one (c : content) : (length (closed c) <= 1)%nat.
Proof. unfold closed. destruct (opened c); cbn; lia. Qed.

(** X16. Reading more lines changes at most the last transaction read so
    far: all the transactions of a run of lines but the last are, as they
    are and in their places, the first transactions of any longer run. *)
Theorem more_lines_keep_earlier_transactions (lines more : list str) :
  take (length (parse_lines lines) - 1) (parse_lines lines)
    `prefix_of` parse_lines (lines ++ more).
Proof.
  rewrite !parse_lines_content. cbv zeta. rewrite fold_left_app.
  set (c := fold_left line_effect lines no_content).
  rewrite (fold_line_effect_saved more c). cbv zeta. cbn [saved].
  set (c' := fold_left line_effect more _).
  pose proof (closed_at_most_one c) as Hc.
  apply prefix_app_r, prefix_app_r.
  rewrite length_app.
  destruct (closed c) as [|t [|]]; cbn [length] in *; [| |lia].
  - rewrite app_nil_r. exists (drop (length (saved c) + 0 - 1) (saved c)).
    by rewrite take_drop.
  - replace (length (saved c) + 1 - 1)%nat with (length (saved c)) by lia.
    by rewrite take_app_length.
Qed.

(** ** Lines that are only a label *)

Lemma lower_cons_inv (text : str) (c : char) (t : str) :
  lower text = lower (c :: t) ->
  exists x text', text = x :: text' /\ lower_char c = lower_char x /\ lower text' = lower t.
Proof.
  destruct text as [|x text']; [done|]. cbn. intros [= Hx Ht]. by exists x, text'.
Qed.

(** A literal text matches, in any case, a text that is the same up to
    case, and the match goes on right after it. *)
Lemma run_lit_ci_exact (t : str) (k : cursor -> option cursor) :
  forall text rest b,
    lower text = lower t ->
    exists b', run true (lit t) k (Cursor b (text ++ rest)) = k (Cursor b' rest).
Proof.
  induction t as [|c t IH]; intros text rest b H.
  - destruct text; [|done]. by exists b.
  - apply lower_cons_inv in H as (x & text' & -> & Hc & Ht).
    cbn [lit fold_right app]. fold (lit t). unfold Chr.
    rewrite run_cat, run_sym, (accepts_ci_one c x Hc). by apply IH.
Qed.

Lemma run_star_space_to_end (ic : bool) (k : cursor -> option cursor) (s : str) :
  forallb is_space s = true ->
  (forall b, k (Cursor b []) <> None) ->
  forall b, run ic (Star space) k (Cursor b s) <> None.
Proof.
  intros Hs Hk. induction s as [|c s IH]; intros b; [apply Hk|].
  cbn [forallb] in Hs. apply andb_true_iff in Hs as [Hc Hs].
  specialize (IH Hs (Some c)).
  cbn [run ahead length] in *. unfold space at 1. cbn [run ahead].
  assert (Ha : accepts ic [Space] c = true).
  { unfold accepts. cbn [existsb cls_has]. by rewrite Hc. }
  rewrite Ha. cbn [ahead length].
  rewrite (proj2 (Nat.ltb_lt _ _) (Nat.lt_succ_diag_r _)).
  match goal with |- match ?e with _ => _ end <> None => destruct e eqn:He end;
    [done|by destruct IH].
Qed.

(** [\s*$] matches whitespace up to the end of the line. *)
Lemma run_spaces_eol (trailing : str) (b : option char) :
  forallb is_space trailing = true ->
  run true (Seq [Star space; Eol]) Some (Cursor b trailing) <> None.
Proof.
  intros Hs. unfold Seq. cbn [fold_right]. rewrite run_cat.
  by apply run_star_space_to_end.
Qed.

Lemma search_at_start (ic : bool) (r : regex) (s : str) :
  run ic r Some (Cursor None s) <> None -> re_search ic r s = true.
Proof.
  intros H. unfold re_search.
  assert (Hm : match_at ic r (Cursor None s) <> None).
  { unfold match_at. by destruct (run ic r Some (Cursor None s)). }
  destruct s; cbn [search_from]; by destruct (match_at ic r _).
Qed.

Lemma run_bol_start (ic : bool) (k : cursor -> option cursor) (s : str) :
  run ic Bol k (Cursor None s) = k (Cursor None s).
Proof. done. Qed.

Lemma label_line_matches (t text trailing : str) :
  lower text = lower t -> forallb is_space trailing = true ->
  re_search true (Seq [Bol; lit t; Star space; Eol]) (text ++ trailing) = true.
Proof.
  intros Ht Hs. apply search_at_start.
  change (Seq [Bol; lit t; Star space; Eol])
    with (Cat Bol (Cat (lit t) (Seq [Star space; Eol]))).
  rewrite run_cat, run_bol_start, run_cat.
  destruct (run_lit_ci_exact t (run true (Seq [Star space; Eol]) Some)
              text trailing None Ht) as [b' ->].
  by apply run_spaces_eol.
Qed.

Lemma label_colon_line_matches (t text trailing : str) (colon : str) :
  colon = [] \/ colon = [58] ->
  lower text = lower t -> forallb is_space trailing = true ->
  re_search true (Seq [Bol; lit t; Opt (Chr 58); Star space; Eol])
            (text ++ colon ++ trailing) = true.
Proof.
  intros Hcolon Ht Hs. apply search_at_start.
  change (Seq [Bol; lit t; Opt (Chr 58); Star space; Eol])
    with (Cat Bol (Cat (lit t) (Cat (Opt (Chr 58)) (Seq [Star space; Eol])))).
  rewrite run_cat, run_bol_start, run_cat.
  destruct (run_lit_ci_exact t
              (run true (Cat (Opt (Chr 58)) (Seq [Star space; Eol])) Some)
              text (colon ++ trailing) None Ht) as [b' ->].
  rewrite run_cat. unfold Opt.
  change (run true (Alt (Chr 58) Eps) ?k ?p)
    with (match run true (Chr 58) k p with Some q => Some q | None => run true Eps k p end).
  destruct Hcolon as [->| ->]; cbn [app].
  - destruct (run true (Chr 58) _ _); [congruence|].
    change (run true Eps ?k ?p) with (k p). by apply run_spaces_eol.
  - unfold Chr at 1. rewrite run_sym. change (accepts true [One 58] 58) with true.
    change (if true then ?a else ?b) with a.
    match goal with
    | |- match ?e with _ => _ end <> None =>
        pose proof (run_spaces_eol trailing (Some 58) Hs : e <> None) as H;
        destruct e; congruence
    end.
Qed.

Lemma mark_line_matches (c : char) (trailing : str) :
  c = 45 \/ c = bullet -> forallb is_space trailing = true ->
  re_search true (Seq [Bol; Sym [One 45; One bullet]; Star space; Eol])
            (c :: trailing) = true.
Proof.
  intros Hc Hs. apply search_at_start.
  change (Seq [Bol; Sym [One 45; One bullet]; Star space; Eol])
    with (Cat Bol (Cat (Sym [One 45; One bullet]) (Seq [Star space; Eol]))).
  rewrite run_cat, run_bol_start, run_cat, run_sym.
  assert (Ha : accepts true [One 45; One bullet] c = true)
    by (destruct Hc as [->| ->]; reflexivity).
  rewrite Ha. by apply run_spaces_eol.
Qed.

Lemma lower_char_not_letter (x c : char) :
  is_lower c = false -> lower_char x = c -> x = c.
Proof.
  unfold lower_char, is_lower, is_upper, in_range. intros Hc Hx.
  destruct ((65 <=? x) && (x <=? 90)) eqn:Hu; [|done].
  apply andb_true_iff in Hu as [H1 H2]. apply N.leb_le in H1, H2.
  apply andb_false_iff in Hc. rewrite !N.leb_gt in Hc. lia.
Qed.

(** The pattern of [JUNK_PATTERNS] a goal names is in the list. *)
Ltac in_junk_patterns := unfold JUNK_PATTERNS, Txt; cbn [In]; tauto.

(** X17. A line that is only one of the labels "General PayPal Debit
    Mastercard", "PreApproved Payment Bill User Payment:", "General",
    "Transaction", "Transaction:", "Direct Deposit", "Direct Deposit:", a
    dash or a bullet, in any letter case and with any whitespace after it,
    is junk, and the parser passes over it. *)
Theorem label_only_line_is_junk (label text trailing : str) :
  In label [ py "General PayPal Debit Mastercard";
             py "PreApproved Payment Bill User Payment:";
             py "General"; py "Transaction"; py "Transaction:";
             py "Direct Deposit"; py "Direct Deposit:"; py "-"; [bullet] ] ->
  lower text = lower label ->
  forallb is_space trailing = true ->
  _is_junk_line (text ++ trailing) = true
  /\ (forall st, parse_line st (text ++ trailing) = st).
Proof.
  intros Hin Ht Hs.
  assert (Hjunk : _is_junk_line (text ++ trailing) = true).
  { unfold _is_junk_line. apply existsb_exists. cbn [In] in Hin.
    destruct Hin as [<-|[<-|[<-|[<-|[<-|[<-|[<-|[<-|[<-|[]]]]]]]]]].
    - eexists. split; [|by apply (label_line_matches _ text trailing Ht Hs)].
      in_junk_patterns.
    - eexists. split; [|by apply (label_line_matches _ text trailing Ht Hs)].
      in_junk_patterns.
    - eexists. split; [|by apply (label_line_matches _ text trailing Ht Hs)].
      in_junk_patterns.
    - eexists. split;
        [|by apply (label_colon_line_matches _ text trailing [] (or_introl eq_refl) Ht Hs)].
      in_junk_patterns.
    - change (py "Transaction:") with (py "Transaction" ++ [58]) in Ht.
      unfold lower in Ht. rewrite map_app in Ht.
      apply fmap_app_inv in Ht as (text1 & colon & Ht1 & Hcolon & ->).
      destruct colon as [|x [|]]; try done. cbn in Hcolon. injection Hcolon as Hx.
      assert (x = 58) as -> by (by apply lower_char_not_letter).
      rewrite <- app_assoc. eexists. split;
        [|by apply (label_colon_line_matches (py "Transaction") text1 trailing [58]
                      (or_intror eq_refl) (eq_sym Ht1) Hs)].
      in_junk_patterns.
    - eexists. split;
        [|by apply (label_colon_line_matches _ text trailing [] (or_introl eq_refl) Ht Hs)].
      in_junk_patterns.
    - change (py "Direct Deposit:") with (py "Direct Deposit" ++ [58]) in Ht.
      unfold lower in Ht. rewrite map_app in Ht.
      apply fmap_app_inv in Ht as (text1 & colon & Ht1 & Hcolon & ->).
      destruct colon as [|x [|]]; try done. cbn in Hcolon. injection Hcolon as Hx.
      assert (x = 58) as -> by (by apply lower_char_not_letter).
      rewrite <- app_assoc. eexists. split;
        [|by apply (label_colon_line_matches (py "Direct Deposit") text1 trailing [58]
                      (or_intror eq_refl) (eq_sym Ht1) Hs)].
      in_junk_patterns.
    - change (lower (py "-")) with [45] in Ht.
      destruct text as [|x [|]]; try done. cbn in Ht. injection Ht as Hx.
      assert (x = 45) as -> by (by apply lower_char_not_letter).
      eexists. split; [|by apply (mark_line_matches 45 trailing (or_introl eq_refl) Hs)].
      in_junk_patterns.
    - change (lower [bullet]) with [8226] in Ht.
      destruct text as [|x [|]]; try done. cbn in Ht. injection Ht as Hx.
      assert (x = bullet) as -> by (by apply lower_char_not_letter).
      eexists. split;
        [|by apply (mark_line_matches bullet trailing (or_intror eq_refl) Hs)].
      in_junk_patterns. }
  split; [done|]. intros st. unfold parse_line. by rewrite Hjunk.
Qed.

Lemma label_only_line_is_junk_example :
  _is_junk_line (py "GENERAL  ") = true
  /\ (forall st, parse_line st (py "GENERAL  ") = st).
Proof.
  apply (label_only_line_is_junk (py "General") (py "GENERAL") (py "  ")).
  - cbn [In]. tauto.
  - reflexivity.
  - reflexivity.
Defined.
